(** * cardano-launcher: the [Launcher] of [cardanoLauncher.ts]

    A shallow embedding of the launcher that supervises a [cardano-node]
    and a [cardano-wallet] process: its exit-status reporting, the chained
    start commands, [start], the [waitForApi] poller, [stop] and the
    process signal handlers.

    The launcher is asynchronous JavaScript.  Each callback of the class
    runs to completion, so it is embedded as a function on the launcher
    state; what the services, the sockets, the timers and the operating
    system do is an [Event] chosen by the environment, and [run] folds a
    sequence of events over the state.  Every call the launcher makes to
    a collaborator is appended to a [trace].  The launcher has no
    exception handler of its own: a function that can be left by an
    exception returns what was thrown, if anything, next to the state it
    leaves. *)

From Stdlib Require Import ZArith List String Bool Lia.
From stdpp Require Import base list strings pretty.
Import ListNotations.

Local Open Scope Z_scope.

(** ** Exit status types *)

(** Modelled from the spec: [ServiceExitStatus] is declared in
    [service.ts], which is not part of the sources at hand.  The spec
    describes it as the terminal outcome of one managed service, one of
    exited normally with a code, exited with a signal, failed to launch,
    or unknown. *)
Inductive ServiceExitStatus : Type :=
| ExitedWithCode (code : Z)
| ExitedWithSignal (signal : string)
| FailedToLaunch (err : string)
| ExitUnknown.

(** A JavaScript object, as far as [_.map] can tell: its own enumerable
    string-keyed properties in insertion order. *)
Definition JsObject (A : Type) : Type := list (string * A).

(** [interface ExitStatus { wallet; node }].  The object literal
    [{ wallet, node }] of [Launcher.stop] creates the property [wallet]
    first and [node] second. *)
Definition ExitStatus : Type := JsObject ServiceExitStatus.

Definition mkExitStatus (wallet node : ServiceExitStatus) : ExitStatus :=
  [("wallet"%string, wallet); ("node"%string, node)].

(** Property access [status.key]; [None] stands for [undefined]. *)
Fixpoint getProp {A : Type} (key : string) (o : JsObject A) : option A :=
  match o with
  | [] => None
  | (k, v) :: o' => if String.eqb k key then Some v else getProp key o'
  end.

(** lodash [_.map(collection, iteratee)] on a plain object: the iteratee
    is called with (value, key, collection) for every own property, in
    property order, and the results are collected in an array. *)
Definition lodash_map {A B : Type}
    (collection : JsObject A) (iteratee : A -> string -> JsObject A -> B)
    : list B :=
  map (fun kv => iteratee (snd kv) (fst kv) collection) collection.

(** The separator ['\n']. *)
Definition newline : string := String (Ascii.ascii_of_nat 10) EmptyString.

(** [Array.prototype.join(separator)] on an array of strings. *)
Definition join (separator : string) (parts : list string) : string :=
  String.concat separator parts.

Section ExitReporting.

(** [serviceExitStatusMessage] is imported from [service.ts]; only its
    type is known here, so it is a parameter of this section. *)
Variable serviceExitStatusMessage : ServiceExitStatus -> string.

(** [exitStatusMessage]: [_.map(status, serviceExitStatusMessage).join('\n')].
    The one-parameter iteratee ignores the key and the collection. *)
Definition exitStatusMessage (status : ExitStatus) : string :=
  join newline
    (lodash_map status (fun res _ _ => serviceExitStatusMessage res)).

(** The reading of the specification: the node line, a newline, the
    wallet line. *)
Definition nodeLineFirst (wallet node : ServiceExitStatus) : string :=
  serviceExitStatusMessage node +:+ newline +:+ serviceExitStatusMessage wallet.

(** What the object built by [stop] renders to: the wallet line, a
    newline, the node line. *)
Definition walletLineFirst (wallet node : ServiceExitStatus) : string :=
  serviceExitStatusMessage wallet +:+ newline +:+ serviceExitStatusMessage node.

End ExitReporting.

(** A renderer to evaluate [exitStatusMessage] with; any function of the
    right type could be used instead. *)
Definition sampleExitStatusMessage (res : ServiceExitStatus) : string :=
  match res with
  | ExitedWithCode code => "exited with status " +:+ pretty code
  | ExitedWithSignal signal => "exited with signal " +:+ signal
  | FailedToLaunch err => "exited with error " +:+ err
  | ExitUnknown => "exited"
  end.

(** ** Collaborators of the launcher *)

(** Modelled from the spec: [ServiceStatus] is the enum of [service.ts],
    described as ordered not-started < starting < started < stopping <
    stopped and compared numerically. *)
Inductive ServiceStatus : Type :=
| NotStarted | Starting | Started | Stopping | Stopped.

(** The numeric value of an enum member, in declaration order. *)
Definition statusValue (st : ServiceStatus) : Z :=
  match st with
  | NotStarted => 0 | Starting => 1 | Started => 2 | Stopping => 3 | Stopped => 4
  end.

Definition isStopped (st : ServiceStatus) : bool :=
  match st with Stopped => true | _ => false end.

(** The two managed services. *)
Inductive Service : Type := Wallet | Node.

#[global] Instance Service_eq_dec : EqDecision Service.
Proof. solve_decision. Defined.

(** Modelled from the spec: [Api] of [walletApi.ts], the connection
    descriptor (host, port) of the wallet API server. *)
Record Api : Type := { apiHost : string; apiPortNumber : Z }.

(** [WalletStartService], as far as the launcher reads it:
    [startService.status.info.port] and [.status.info.api]. *)
Record WalletStartService : Type := { infoPort : Z; infoApi : Api }.

(** [NodeStartService]: the launcher only passes it on. *)
Inductive NodeStartService : Type := nodeStartService.

(** The reason of a rejected promise, together with the stack that
    [new Error().stack] yields where [passthroughErrorLogger] runs. *)
Record Rejection : Type := { reason : string; loggerStack : string }.

#[global] Instance Rejection_eq_dec : EqDecision Rejection.
Proof. solve_decision. Defined.

Inductive Promise (A E : Type) : Type :=
| Pending
| Fulfilled (value : A)
| Rejected (err : E).
Arguments Pending {A E}.
Arguments Fulfilled {A E} value.
Arguments Rejected {A E} err.

Definition isFulfilled {A E : Type} (p : Promise A E) : bool :=
  match p with Fulfilled _ => true | _ => false end.

Definition isRejected {A E : Type} (p : Promise A E) : bool :=
  match p with Rejected _ => true | _ => false end.

Definition isPending {A E : Type} (p : Promise A E) : bool :=
  match p with Pending => true | _ => false end.

(** [BackendExitedError]: [status] is stored, and the message passed to
    [super] is [exitStatusMessage status]. *)
Record BackendExitedError : Type := { errorStatus : ExitStatus }.

Definition errorMessage (serviceExitStatusMessage : ServiceExitStatus -> string)
    (e : BackendExitedError) : string :=
  exitStatusMessage serviceExitStatusMessage (errorStatus e).

(** [LaunchConfig], as far as the launcher reads it.  A field of type
    [option] is an optional property; [None] is an omitted one.  The
    node configuration and the log streams are only passed on to
    [cardanoNode.ts], [cardanoWallet.ts] and [service.ts]. *)
Record LaunchConfig : Type := {
  stateDir : string;
  networkName : string;
  installSignalHandlersOpt : option bool
}.

(** ** The launcher state *)

(** A listener on [walletBackend.events].  Those the launcher registers
    are the two of [start]: [resolve] on ['ready'], and
    [st => reject(new BackendExitedError(st))] on ['exit'], both of the
    promise that call of [start] returns; [promise] is its index in
    [startPromises].  The emitter is a public attribute, so other code
    registers listeners of its own on either event; of such a listener
    the launcher sees whether it returns or throws, and [throws] is
    what it throws.  A listener of other code is taken to do the same
    at every call, to stay registered, and not to call the launcher
    while it runs. *)
Inductive Subscription : Type :=
| OnReady (promise : nat)
| OnExit (promise : nat)
| ForeignReady (throws : option Rejection)
| ForeignExit (throws : option Rejection).

#[global] Instance Subscription_eq_dec : EqDecision Subscription.
Proof. solve_decision. Defined.

(** A listener of [process]: the [handler] closure of this launcher, or a
    listener somebody else registered. *)
Inductive ProcessListener : Type :=
| OwnHandler
| Foreign (id : nat).

#[global] Instance ProcessListener_eq_dec : EqDecision ProcessListener.
Proof. solve_decision. Defined.

(** The value of the [cleanupSignalHandlers] field: [noop], or the
    closure [installSignalHandlers] assigns. *)
Inductive Cleanup : Type := noop | removeSignalHandlers.

Inductive StopCaller : Type :=
| ByStatusChanged   (* [this.stop().catch(passthroughErrorLogger)] *)
| ByUser.           (* a call of the public method *)

(** Operations in flight, whose outcome the environment decides. *)
Inductive Async : Type :=
| AMkdirp
| ANodeExe
| AWalletExe
| AServiceStart (svc : Service)
| ALauncherStop (caller : StopCaller)
| ASignalStop (svc : Service).

#[global] Instance StopCaller_eq_dec : EqDecision StopCaller.
Proof. solve_decision. Defined.

#[global] Instance Async_eq_dec : EqDecision Async.
Proof. solve_decision. Defined.

(** [net.SocketConnectOpts]. *)
Record SocketConnectOpts : Type := { port : Z; host : string }.

Inductive SocketState : Type := Connecting | Connected | Failed.

(** The variables one call of [waitForApi] closes over: the interval
    timer, [addr] and [client]. *)
Record Poller : Type := {
  timerActive : bool;
  addr : option SocketConnectOpts;
  client : option SocketState
}.

(** What the launcher does to its collaborators, and the settlements of
    promises it is told of, in the order they happen.  [CallNodeExe] is
    the call of [Launcher.nodeExe], which for the one node kind there
    is, ['shelley'], is [cardanoNode.startCardanoNode]; [CallWalletExe]
    is the call of [Launcher.walletExe]. *)
Inductive Action : Type :=
| Debug (msg : string)
| Info (msg : string)
| ConsoleDebug (msg : string)
| Mkdirp (dir : string)
| CallNodeExe
| CallWalletExe
| NodeCommandSettled (ok : bool)
| WalletCommandSettled (ok : bool)
| SvcStart (svc : Service)
| ServiceStartSettled (svc : Service) (ok : bool)
| SvcStop (svc : Service) (timeoutSeconds : Z)
| On (subscription : Subscription)
| EmitReady (api : Api)
| EmitExit (status : ExitStatus)
| SetInterval (timer : nat) (ms : Z)
| ClearInterval (timer : nat)
| SocketDestroy (timer : nat)
| SocketConnect (timer : nat) (opts : SocketConnectOpts)
| ProcessOn (signal : string)
| ProcessOff (signal : string).

Record Launcher : Type := {
  walletStatus : ServiceStatus;          (* [walletService.getStatus()] *)
  nodeStatus : ServiceStatus;            (* [nodeService.getStatus()] *)
  nodeCommand : Promise NodeStartService Rejection;     (* [start.node] *)
  walletCommand : Promise WalletStartService Rejection; (* [start.wallet] *)
  apiPort : Z;
  exited : bool;
  cleanupSignalHandlers : Cleanup;
  processListeners : list (string * ProcessListener);
  listeners : list Subscription;
  startPromises : list (Promise Api BackendExitedError);
  pollers : list Poller;
  pending : list Async;
  trace : list Action
}.

(** Assignments to one field of the state. *)
Definition set_walletStatus (v : ServiceStatus) (s : Launcher) : Launcher :=
  {| walletStatus := v; nodeStatus := nodeStatus s;
     nodeCommand := nodeCommand s; walletCommand := walletCommand s;
     apiPort := apiPort s; exited := exited s;
     cleanupSignalHandlers := cleanupSignalHandlers s;
     processListeners := processListeners s; listeners := listeners s;
     startPromises := startPromises s; pollers := pollers s;
     pending := pending s; trace := trace s |}.

Definition set_nodeStatus (v : ServiceStatus) (s : Launcher) : Launcher :=
  {| walletStatus := walletStatus s; nodeStatus := v;
     nodeCommand := nodeCommand s; walletCommand := walletCommand s;
     apiPort := apiPort s; exited := exited s;
     cleanupSignalHandlers := cleanupSignalHandlers s;
     processListeners := processListeners s; listeners := listeners s;
     startPromises := startPromises s; pollers := pollers s;
     pending := pending s; trace := trace s |}.

Definition set_nodeCommand (v : Promise NodeStartService Rejection) (s : Launcher) : Launcher :=
  {| walletStatus := walletStatus s; nodeStatus := nodeStatus s;
     nodeCommand := v; walletCommand := walletCommand s;
     apiPort := apiPort s; exited := exited s;
     cleanupSignalHandlers := cleanupSignalHandlers s;
     processListeners := processListeners s; listeners := listeners s;
     startPromises := startPromises s; pollers := pollers s;
     pending := pending s; trace := trace s |}.

Definition set_walletCommand (v : Promise WalletStartService Rejection) (s : Launcher) : Launcher :=
  {| walletStatus := walletStatus s; nodeStatus := nodeStatus s;
     nodeCommand := nodeCommand s; walletCommand := v; apiPort := apiPort s;
     exited := exited s; cleanupSignalHandlers := cleanupSignalHandlers s;
     processListeners := processListeners s; listeners := listeners s;
     startPromises := startPromises s; pollers := pollers s;
     pending := pending s; trace := trace s |}.

Definition set_apiPort (v : Z) (s : Launcher) : Launcher :=
  {| walletStatus := walletStatus s; nodeStatus := nodeStatus s;
     nodeCommand := nodeCommand s; walletCommand := walletCommand s;
     apiPort := v; exited := exited s;
     cleanupSignalHandlers := cleanupSignalHandlers s;
     processListeners := processListeners s; listeners := listeners s;
     startPromises := startPromises s; pollers := pollers s;
     pending := pending s; trace := trace s |}.

Definition set_exited (v : bool) (s : Launcher) : Launcher :=
  {| walletStatus := walletStatus s; nodeStatus := nodeStatus s;
     nodeCommand := nodeCommand s; walletCommand := walletCommand s;
     apiPort := apiPort s; exited := v;
     cleanupSignalHandlers := cleanupSignalHandlers s;
     processListeners := processListeners s; listeners := listeners s;
     startPromises := startPromises s; pollers := pollers s;
     pending := pending s; trace := trace s |}.

Definition set_cleanupSignalHandlers (v : Cleanup) (s : Launcher) : Launcher :=
  {| walletStatus := walletStatus s; nodeStatus := nodeStatus s;
     nodeCommand := nodeCommand s; walletCommand := walletCommand s;
     apiPort := apiPort s; exited := exited s; cleanupSignalHandlers := v;
     processListeners := processListeners s; listeners := listeners s;
     startPromises := startPromises s; pollers := pollers s;
     pending := pending s; trace := trace s |}.

Definition set_processListeners (v : list (string * ProcessListener)) (s : Launcher) : Launcher :=
  {| walletStatus := walletStatus s; nodeStatus := nodeStatus s;
     nodeCommand := nodeCommand s; walletCommand := walletCommand s;
     apiPort := apiPort s; exited := exited s;
     cleanupSignalHandlers := cleanupSignalHandlers s; processListeners := v;
     listeners := listeners s; startPromises := startPromises s;
     pollers := pollers s; pending := pending s; trace := trace s |}.

Definition set_listeners (v : list Subscription) (s : Launcher) : Launcher :=
  {| walletStatus := walletStatus s; nodeStatus := nodeStatus s;
     nodeCommand := nodeCommand s; walletCommand := walletCommand s;
     apiPort := apiPort s; exited := exited s;
     cleanupSignalHandlers := cleanupSignalHandlers s;
     processListeners := processListeners s; listeners := v;
     startPromises := startPromises s; pollers := pollers s;
     pending := pending s; trace := trace s |}.

Definition set_startPromises (v : list (Promise Api BackendExitedError)) (s : Launcher) : Launcher :=
  {| walletStatus := walletStatus s; nodeStatus := nodeStatus s;
     nodeCommand := nodeCommand s; walletCommand := walletCommand s;
     apiPort := apiPort s; exited := exited s;
     cleanupSignalHandlers := cleanupSignalHandlers s;
     processListeners := processListeners s; listeners := listeners s;
     startPromises := v; pollers := pollers s; pending := pending s;
     trace := trace s |}.

Definition set_pollers (v : list Poller) (s : Launcher) : Launcher :=
  {| walletStatus := walletStatus s; nodeStatus := nodeStatus s;
     nodeCommand := nodeCommand s; walletCommand := walletCommand s;
     apiPort := apiPort s; exited := exited s;
     cleanupSignalHandlers := cleanupSignalHandlers s;
     processListeners := processListeners s; listeners := listeners s;
     startPromises := startPromises s; pollers := v; pending := pending s;
     trace := trace s |}.

Definition set_pending (v : list Async) (s : Launcher) : Launcher :=
  {| walletStatus := walletStatus s; nodeStatus := nodeStatus s;
     nodeCommand := nodeCommand s; walletCommand := walletCommand s;
     apiPort := apiPort s; exited := exited s;
     cleanupSignalHandlers := cleanupSignalHandlers s;
     processListeners := processListeners s; listeners := listeners s;
     startPromises := startPromises s; pollers := pollers s; pending := v;
     trace := trace s |}.

Definition set_trace (v : list Action) (s : Launcher) : Launcher :=
  {| walletStatus := walletStatus s; nodeStatus := nodeStatus s;
     nodeCommand := nodeCommand s; walletCommand := walletCommand s;
     apiPort := apiPort s; exited := exited s;
     cleanupSignalHandlers := cleanupSignalHandlers s;
     processListeners := processListeners s; listeners := listeners s;
     startPromises := startPromises s; pollers := pollers s;
     pending := pending s; trace := v |}.

Notation "s |> f" := (f s) (at level 45, left associativity, only parsing).

(** A call to a collaborator, or a settlement the launcher is told of, is
    appended to the trace. *)
Definition log (a : Action) (s : Launcher) : Launcher :=
  set_trace (trace s ++ [a]) s.

(** An asynchronous operation is started. *)
Definition await (a : Async) (s : Launcher) : Launcher :=
  set_pending (pending s ++ [a]) s.

Fixpoint removeFirst {A : Type} `{EqDecision A} (x : A) (l : list A) : list A :=
  match l with
  | [] => []
  | y :: l' => if decide (x = y) then l' else y :: removeFirst x l'
  end.

Definition inFlight (a : Async) (s : Launcher) : bool :=
  bool_decide (a ∈ pending s).

(** An asynchronous operation has settled. *)
Definition finish (a : Async) (s : Launcher) : Launcher :=
  set_pending (removeFirst a (pending s)) s.

(** ** [common.ts] *)

(** [passthroughErrorLogger]: two calls of [console.debug], and no
    exception. *)
Definition passthroughErrorLogger (err : Rejection) (s : Launcher) : Launcher :=
  s |> log (ConsoleDebug
             ("Caught an unhandled promise rejection. The promise location is:"
              +:+ newline +:+ loggerStack err +:+ newline +:+ newline
              +:+ "The error follows:"))
    |> log (ConsoleDebug (reason err)).

(** [ignorePromiseRejection]: the empty function. *)
Definition ignorePromiseRejection (_ : Rejection) (s : Launcher) : Launcher := s.

(** ** The start commands: [makeServiceCommands] and its continuations *)

Definition settle {A E : Type} (r : A + E) : Promise A E :=
  match r with inl v => Fulfilled v | inr e => Rejected e end.

Definition succeeded {A E : Type} (r : A + E) : bool :=
  match r with inl _ => true | inr _ => false end.

(** The synchronous part of [makeServiceCommands]: the log line and the
    call of [mkdirp]; [node] and [wallet] are created pending. *)
Definition makeServiceCommands (config : LaunchConfig) (s : Launcher) : Launcher :=
  s |> log (Info ("Creating state directory " +:+ stateDir config
                  +:+ " (if it doesn't already exist)"))
    |> log (Mkdirp (stateDir config))
    |> await AMkdirp.

(** [start.wallet] settles.  The constructor has chained
    [.then(startService => { this.apiPort = startService.status.info.port })
     .catch(passthroughErrorLogger)] to it. *)
Definition walletCommandSettles (r : WalletStartService + Rejection)
    (s : Launcher) : Launcher :=
  let s := s |> set_walletCommand (settle r)
             |> log (WalletCommandSettled (succeeded r)) in
  match r with
  | inl startService => set_apiPort (infoPort startService) s
  | inr err => passthroughErrorLogger err s
  end.

(** [start.node] settles.  [wallet = node.then(() => Launcher.walletExe(..))]
    has a fulfilment handler only: a rejection of [node] rejects [wallet]
    with the same reason, and [walletExe] is not called. *)
Definition nodeCommandSettles (r : NodeStartService + Rejection)
    (s : Launcher) : Launcher :=
  let s := s |> set_nodeCommand (settle r)
             |> log (NodeCommandSettled (succeeded r)) in
  match r with
  | inl _ => s |> log CallWalletExe |> await AWalletExe
  | inr err => walletCommandSettles (inr err) s
  end.

(** [mkdirp(config.stateDir)] settles.
    [node = mkdirp(..).then(() => Launcher.nodeExe(..))]. *)
Definition mkdirpSettles (r : option Rejection) (s : Launcher) : Launcher :=
  match r with
  | None => s |> log CallNodeExe |> await ANodeExe
  | Some err => nodeCommandSettles (inr err) s
  end.

(** ** [walletBackend.events] *)

(** [resolve] and [reject] of a promise act on a pending promise only. *)
Definition settleStartPromise (promise : nat)
    (r : Promise Api BackendExitedError) (s : Launcher) : Launcher :=
  match startPromises s !! promise with
  | Some Pending => set_startPromises (<[promise := r]> (startPromises s)) s
  | _ => s
  end.

Definition subscribe (l : Subscription) (s : Launcher) : Launcher :=
  s |> set_listeners (listeners s ++ [l]) |> log (On l).

(** Other code calls [walletBackend.events.on] with a listener of its
    own. *)
Definition foreignOn (l : Subscription) (s : Launcher) : Launcher :=
  set_listeners (listeners s ++ [l]) s.

(** The listeners of ['ready'] among [ls] are called in order.  The
    emitter is the [EventEmitter] of the package [tsee], which is not
    part of the sources at hand; its [emit] calls the listeners of the
    event one after the other with no handler around the call: when one
    throws, those after it are not called and the exception leaves
    [emit]. *)
Fixpoint callReady (api : Api) (ls : list Subscription) (s : Launcher)
    : option Rejection * Launcher :=
  match ls with
  | [] => (None, s)
  | OnReady promise :: ls' =>
      callReady api ls' (settleStartPromise promise (Fulfilled api) s)
  | ForeignReady (Some err) :: _ => (Some err, s)
  | _ :: ls' => callReady api ls' s
  end.

Fixpoint callExit (status : ExitStatus) (ls : list Subscription) (s : Launcher)
    : option Rejection * Launcher :=
  match ls with
  | [] => (None, s)
  | OnExit promise :: ls' =>
      callExit status ls'
        (settleStartPromise promise (Rejected {| errorStatus := status |}) s)
  | ForeignExit (Some err) :: _ => (Some err, s)
  | _ :: ls' => callExit status ls' s
  end.

(** [events.emit('ready', api)]: the listeners of ['ready'] registered at
    that moment are called in registration order.  The first component
    of the result is what the emission throws. *)
Definition emitReady (api : Api) (s : Launcher) : option Rejection * Launcher :=
  callReady api (listeners s) (log (EmitReady api) s).

(** [events.emit('exit', status)]. *)
Definition emitExit (status : ExitStatus) (s : Launcher)
    : option Rejection * Launcher :=
  callExit status (listeners s) (log (EmitExit status) s).

(** ** Signal handlers *)

Definition signals : list string :=
  ["SIGINT"; "SIGTERM"; "SIGHUP"; "SIGBREAK"]%string.

(** [process.on(signal, handler)]. *)
Definition processOn (signal : string) (s : Launcher) : Launcher :=
  s |> set_processListeners (processListeners s ++ [(signal, OwnHandler)])
    |> log (ProcessOn signal).

(** [process.off(signal, handler)] removes the most recently added
    instance of [handler] for [signal], if there is one. *)
Definition processOff (signal : string) (s : Launcher) : Launcher :=
  s |> set_processListeners
         (rev (removeFirst (signal, OwnHandler) (rev (processListeners s))))
    |> log (ProcessOff signal).

(** The [handler] closure of [installSignalHandlers].  Both calls of
    [stop(0)] have [.catch(passthroughErrorLogger)] chained. *)
Definition handler (signal : string) (s : Launcher) : Launcher :=
  s |> log (Info ("Received " +:+ signal +:+ " - stopping services..."))
    |> log (SvcStop Wallet 0) |> await (ASignalStop Wallet)
    |> log (SvcStop Node 0) |> await (ASignalStop Node).

Definition installSignalHandlers (s : Launcher) : Launcher :=
  fold_left (fun s' signal => processOn signal s') signals s
  |> set_cleanupSignalHandlers removeSignalHandlers.

(** [this.cleanupSignalHandlers()]: whatever closure the field holds. *)
Definition callCleanupSignalHandlers (s : Launcher) : Launcher :=
  match cleanupSignalHandlers s with
  | noop => s
  | removeSignalHandlers =>
      fold_left (fun s' signal => processOff signal s') signals s
      |> set_cleanupSignalHandlers noop
  end.

(** ** [Launcher.stop] *)

(** The synchronous part of [stop(timeoutSeconds = 60)]. *)
Definition stop (timeoutSeconds : option Z) (caller : StopCaller)
    (s : Launcher) : Launcher :=
  let timeoutSeconds := default 60 timeoutSeconds in
  s |> log (Debug "Launcher.stop: stopping wallet and node")
    |> log (SvcStop Wallet timeoutSeconds)
    |> log (SvcStop Node timeoutSeconds)
    |> await (ALauncherStop caller).

(** The continuation [.then(([wallet, node]) => { .. })] of [stop]; the
    first component of the result is what the promise [stop] has
    returned is settled with: the status the continuation returns, or
    what it throws.  When a listener of ['exit'] throws, the assignment
    to [exited], the cleanup and the [return] are not reached. *)
Definition stopThen (wallet node : ServiceExitStatus) (s : Launcher)
    : (ExitStatus + Rejection) * Launcher :=
  let status := mkExitStatus wallet node in
  let s := log (Debug "Launcher.stop: both services are stopped.") s in
  let (thrown, s) :=
    if negb (exited s)
    then let (thrown, s) := emitExit status s in
         match thrown with
         | Some err => (Some err, s)
         | None => (None, set_exited true s)
         end
    else (None, s) in
  match thrown with
  | Some err => (inr err, s)
  | None => (inl status, callCleanupSignalHandlers s)
  end.

(** ** The constructor *)

(** The state before the constructor body runs: both services not
    started, [apiPort = 0], [exited = false],
    [cleanupSignalHandlers = noop]; [others] are the listeners other
    code has on [process]. *)
Definition newLauncher (others : list (string * nat)) : Launcher :=
  {| walletStatus := NotStarted; nodeStatus := NotStarted;
     nodeCommand := Pending; walletCommand := Pending;
     apiPort := 0; exited := false; cleanupSignalHandlers := noop;
     processListeners := map (fun l => (fst l, Foreign (snd l))) others;
     listeners := []; startPromises := []; pollers := [];
     pending := []; trace := [] |}.

(** [const { installSignalHandlers = true } = config]: the default applies
    to an omitted property. *)
Definition installSignalHandlersOrDefault (config : LaunchConfig) : bool :=
  default true (installSignalHandlersOpt config).

Definition constructor (config : LaunchConfig) (others : list (string * nat))
    : Launcher :=
  let s := newLauncher others
           |> log (Debug "Launcher init")
           |> makeServiceCommands config in
  if installSignalHandlersOrDefault config then installSignalHandlers s else s.

(** The listeners on [statusChanged] of either service. *)
Definition onStatusChanged (svc : Service) (status : ServiceStatus)
    (s : Launcher) : Launcher :=
  if isStopped status
  then s |> log (Debug (match svc with
                        | Wallet => "wallet exited"
                        | Node => "node exited"
                        end))
         |> stop None ByStatusChanged
  else s.

(** ** [Launcher.start] and [waitForApi] *)

Definition getStatus (svc : Service) (s : Launcher) : ServiceStatus :=
  match svc with Wallet => walletStatus s | Node => nodeStatus s end.

(** The closure [stopWaiting] of [start]: [status > ServiceStatus.Started]
    for either service. *)
Definition stopWaiting (s : Launcher) : bool :=
  (statusValue Started <? statusValue (getStatus Node s))
  || (statusValue Started <? statusValue (getStatus Wallet s)).

(** Modelled from the spec: [walletBackend.getApi] reads the start info
    the wallet service has cached, [getConfig().status.info.api] with
    [getConfig] of [service.ts]; before the wallet command is known there
    is nothing to read and the call fails ([None]). *)
Definition getApi (s : Launcher) : option Api :=
  match walletCommand s with
  | Fulfilled startService => Some (infoApi startService)
  | _ => None
  end.

(** The closure [ready] of [start]:
    [this.walletBackend.events.emit('ready', this.walletBackend.getApi())]. *)
Definition ready (s : Launcher) : option Rejection * Launcher :=
  match getApi s with
  | Some api => emitReady api s
  | None => (None, s)
  end.

Definition alterPoller (timer : nat) (f : Poller -> Poller) (s : Launcher)
    : Launcher :=
  set_pollers (alter f timer (pollers s)) s.

Definition setClient (c : SocketState) (p : Poller) : Poller :=
  {| timerActive := timerActive p; addr := addr p; client := Some c |}.

Definition setAddr (a : SocketConnectOpts) (p : Poller) : Poller :=
  {| timerActive := timerActive p; addr := Some a; client := client p |}.

Definition clearTimer (p : Poller) : Poller :=
  {| timerActive := false; addr := addr p; client := client p |}.

(** [clearInterval(timer)]. *)
Definition clearInterval (timer : nat) (s : Launcher) : Launcher :=
  s |> alterPoller timer clearTimer |> log (ClearInterval timer).

(** The synchronous part of [waitForApi]: the log line and [setInterval];
    [addr] and [client] are declared and left undefined. *)
Definition waitForApi (s : Launcher) : Launcher :=
  let timer := length (pollers s) in
  s |> log (Debug "waitForApi")
    |> set_pollers
         (pollers s ++ [{| timerActive := true; addr := None; client := None |}])
    |> log (SetInterval timer 250).

(** The body of the interval callback of [waitForApi]. *)
Definition timerCallback (stop : Launcher -> bool) (timer : nat)
    (s : Launcher) : Launcher :=
  if stop s then clearInterval timer s
  else if negb (apiPort s =? 0) then
    match pollers s !! timer with
    | None => s
    | Some p =>
        let opts := match addr p with
                    | Some opts => opts
                    | None => {| port := apiPort s; host := "127.0.0.1" |}
                    end in
        let s := match addr p with
                 | Some _ => s
                 | None =>
                     s |> alterPoller timer (setAddr opts)
                       |> log (Info ("Waiting for tcp port " +:+ host opts
                                     +:+ ":" +:+ pretty (port opts)
                                     +:+ " to accept connections..."))
                 end in
        let s := match client p with
                 | Some _ => log (SocketDestroy timer) s
                 | None => s
                 end in
        s |> alterPoller timer (setClient Connecting)
          |> log (SocketConnect timer opts)
    end
  else s.

(** The callback of [client.connect(addr, ..)]; [ready] is its last
    statement, and what [ready] throws leaves the callback. *)
Definition connectCallback (ready : Launcher -> option Rejection * Launcher)
    (timer : nat) (s : Launcher) : option Rejection * Launcher :=
  s |> log (Info "... port is ready.")
    |> clearInterval timer
    |> ready.

(** The listener of ['error'] on the client socket. *)
Definition errorCallback (err : string) (s : Launcher) : Launcher :=
  log (Debug ("waitForApi: not ready yet: " +:+ err)) s.

(** The executor of the promise [start] returns.  Both calls of
    [service.start()] have [.catch(ignorePromiseRejection)] chained. *)
Definition start (s : Launcher) : Launcher :=
  let promise := length (startPromises s) in
  s |> set_startPromises (startPromises s ++ [Pending])
    |> log (SvcStart Node) |> await (AServiceStart Node)
    |> log (SvcStart Wallet) |> await (AServiceStart Wallet)
    |> waitForApi
    |> subscribe (OnReady promise)
    |> subscribe (OnExit promise).

(** ** The environment *)

Inductive Event : Type :=
| EvMkdirp (r : option Rejection)
| EvNodeExe (r : NodeStartService + Rejection)
| EvWalletExe (r : WalletStartService + Rejection)
| EvStart
| EvStop (timeoutSeconds : option Z)
| EvStatusChanged (svc : Service) (status : ServiceStatus)
| EvServiceStartSettled (svc : Service) (r : option Rejection)
| EvStopSettled (caller : StopCaller)
    (r : (ServiceExitStatus * ServiceExitStatus) + Rejection)
| EvTick (timer : nat)
| EvConnect (timer : nat)
| EvSocketError (timer : nat) (err : string)
| EvSignal (signal : string)
| EvSignalStopSettled (svc : Service) (r : option Rejection)
| EvOnReady (throws : option Rejection)
| EvOnExit (throws : option Rejection).

Definition setStatus (svc : Service) (status : ServiceStatus) (s : Launcher)
    : Launcher :=
  match svc with
  | Wallet => set_walletStatus status s
  | Node => set_nodeStatus status s
  end.

(** The interval of [timer] has not been cleared. *)
Definition timerRunning (timer : nat) (s : Launcher) : bool :=
  match pollers s !! timer with
  | Some p => timerActive p
  | None => false
  end.

(** The current [client] of [timer] has a connection attempt in flight. *)
Definition connecting (timer : nat) (s : Launcher) : bool :=
  match pollers s !! timer with
  | Some {| client := Some Connecting |} => true
  | _ => false
  end.

(** The current [client] of [timer] can still report an error: its
    attempt is in flight, or it is connected.  The listener of ['error']
    stays on the socket after the connection is made. *)
Definition socketOpen (timer : nat) (s : Launcher) : bool :=
  match pollers s !! timer with
  | Some {| client := Some Connecting |}
  | Some {| client := Some Connected |} => true
  | _ => false
  end.

(** One turn of the event loop.  An event that cannot happen in the
    state (nothing of its kind is in flight) leaves the state alone.
    A rejection of [Promise.all] passes the continuation of [stop] by
    and rejects the promise [stop] has returned, as an exception of the
    continuation does; the caller in the constructor has chained
    [.catch(passthroughErrorLogger)], and a caller of the public method
    is handed the promise.  What the callback of [client.connect]
    throws is left to the event loop. *)
Definition step (e : Event) (s : Launcher) : Launcher :=
  match e with
  | EvMkdirp r =>
      if inFlight AMkdirp s
      then s |> finish AMkdirp |> mkdirpSettles r else s
  | EvNodeExe r =>
      if inFlight ANodeExe s
      then s |> finish ANodeExe |> nodeCommandSettles r else s
  | EvWalletExe r =>
      if inFlight AWalletExe s
      then s |> finish AWalletExe |> walletCommandSettles r else s
  | EvStart => start s
  | EvStop timeoutSeconds => stop timeoutSeconds ByUser s
  | EvStatusChanged svc status =>
      s |> setStatus svc status |> onStatusChanged svc status
  | EvServiceStartSettled svc r =>
      if inFlight (AServiceStart svc) s
      then let s := s |> finish (AServiceStart svc)
                      |> log (ServiceStartSettled svc (bool_decide (r = None))) in
           match r with
           | Some err => ignorePromiseRejection err s
           | None => s
           end
      else s
  | EvStopSettled caller r =>
      if inFlight (ALauncherStop caller) s
      then let s := finish (ALauncherStop caller) s in
           let (result, s) := match r with
                              | inl (wallet, node) => stopThen wallet node s
                              | inr err => (inr err, s)
                              end in
           match result, caller with
           | inr err, ByStatusChanged => passthroughErrorLogger err s
           | _, _ => s
           end
      else s
  | EvTick timer =>
      if timerRunning timer s then timerCallback stopWaiting timer s else s
  | EvConnect timer =>
      if connecting timer s
      then s |> alterPoller timer (setClient Connected)
             |> connectCallback ready timer
             |> snd
      else s
  | EvSocketError timer err =>
      if socketOpen timer s
      then s |> alterPoller timer (setClient Failed) |> errorCallback err
      else s
  | EvSignal signal =>
      fold_left
        (fun s' l => if decide (l = (signal, OwnHandler))
                     then handler signal s' else s')
        (processListeners s) s
  | EvSignalStopSettled svc r =>
      if inFlight (ASignalStop svc) s
      then let s := finish (ASignalStop svc) s in
           match r with
           | Some err => passthroughErrorLogger err s
           | None => s
           end
      else s
  | EvOnReady throws => foreignOn (ForeignReady throws) s
  | EvOnExit throws => foreignOn (ForeignExit throws) s
  end.

Definition run (events : list Event) (s : Launcher) : Launcher :=
  fold_left (fun s' e => step e s') events s.

(** ** Observations on states and traces *)

Fixpoint count (p : Action -> bool) (tr : list Action) : nat :=
  match tr with
  | [] => 0%nat
  | a :: tr' => if p a then S (count p tr') else count p tr'
  end.

(** Every action that satisfies [q] comes after some action that
    satisfies [p]; [seen] tells whether a [p] has already happened. *)
Fixpoint precededFrom (p q : Action -> bool) (seen : bool) (tr : list Action)
    : bool :=
  match tr with
  | [] => true
  | a :: tr' =>
      (if q a then seen else true) && precededFrom p q (seen || p a) tr'
  end.

Definition precededBy (p q : Action -> bool) (tr : list Action) : bool :=
  precededFrom p q false tr.

Definition isEmitExit (a : Action) : bool :=
  match a with EmitExit _ => true | _ => false end.

Definition isEmitReady (a : Action) : bool :=
  match a with EmitReady _ => true | _ => false end.

Definition isCallWalletExe (a : Action) : bool :=
  match a with CallWalletExe => true | _ => false end.

Definition isNodeCommandFulfilled (a : Action) : bool :=
  match a with NodeCommandSettled true => true | _ => false end.

Definition isSvcStart (svc : Service) (a : Action) : bool :=
  match a with SvcStart svc' => bool_decide (svc' = svc) | _ => false end.

Definition isServiceStartSettled (svc : Service) (a : Action) : bool :=
  match a with
  | ServiceStartSettled svc' _ => bool_decide (svc' = svc)
  | _ => false
  end.

Definition isSubscribeReady (a : Action) : bool :=
  match a with On (OnReady _) => true | _ => false end.

Definition isSubscribeExit (a : Action) : bool :=
  match a with On (OnExit _) => true | _ => false end.

(** The operations of [start] that can lead to ['ready'] or ['exit']:
    the two service starts and the interval of the poller. *)
Definition isLaunch (a : Action) : bool :=
  match a with
  | SvcStart _ => true
  | SetInterval _ _ => true
  | _ => false
  end.

Definition isProcessOff (signal : string) (a : Action) : bool :=
  match a with ProcessOff signal' => String.eqb signal' signal | _ => false end.

(** [handler] of this launcher is registered for [signal]. *)
Definition handles (signal : string) (s : Launcher) : bool :=
  bool_decide ((signal, OwnHandler) ∈ processListeners s).

(** Both listeners of every promise [start] has returned are registered. *)
Definition allSubscribed (s : Launcher) : bool :=
  forallb
    (fun promise =>
       bool_decide (OnReady promise ∈ listeners s)
       && bool_decide (OnExit promise ∈ listeners s))
    (seq 0 (length (startPromises s))).

(** [resolve] or [reject] of promise number [promise], on the list of
    promises. *)
Definition settleIn (promise : nat) (r : Promise Api BackendExitedError)
    (ps : list (Promise Api BackendExitedError))
    : list (Promise Api BackendExitedError) :=
  match ps !! promise with
  | Some Pending => <[promise := r]> ps
  | _ => ps
  end.

(** What a listener throws when ['ready'], or ['exit'], is emitted. *)
Definition throwsOnReady (l : Subscription) : option Rejection :=
  match l with ForeignReady throws => throws | _ => None end.

Definition throwsOnExit (l : Subscription) : option Rejection :=
  match l with ForeignExit throws => throws | _ => None end.

(** The listeners an emission gets to: those before the first one that
    throws. *)
Fixpoint called (throws : Subscription -> option Rejection)
    (ls : list Subscription) : list Subscription :=
  match ls with
  | [] => []
  | l :: ls' =>
      match throws l with
      | Some _ => []
      | None => l :: called throws ls'
      end
  end.

(** What the first listener that throws, if there is one, throws. *)
Fixpoint firstThrown (throws : Subscription -> option Rejection)
    (ls : list Subscription) : option Rejection :=
  match ls with
  | [] => None
  | l :: ls' =>
      match throws l with
      | Some err => Some err
      | None => firstThrown throws ls'
      end
  end.

(** What the listeners of ['ready'] and of ['exit'] do to the promises. *)
Definition resolveAll (api : Api) (ls : list Subscription)
    (ps : list (Promise Api BackendExitedError))
    : list (Promise Api BackendExitedError) :=
  fold_left
    (fun ps' l => match l with
                  | OnReady promise => settleIn promise (Fulfilled api) ps'
                  | _ => ps'
                  end) ls ps.

Definition rejectAll (status : ExitStatus) (ls : list Subscription)
    (ps : list (Promise Api BackendExitedError))
    : list (Promise Api BackendExitedError) :=
  fold_left
    (fun ps' l => match l with
                  | OnExit promise =>
                      settleIn promise (Rejected {| errorStatus := status |}) ps'
                  | _ => ps'
                  end) ls ps.

(** How often [handler] is registered for [signal]. *)
Definition registrations (signal : string)
    (ls : list (string * ProcessListener)) : nat :=
  length (List.filter (fun l => bool_decide (l = (signal, OwnHandler))) ls).

(** ** Sample inputs *)

Definition sampleConfig : LaunchConfig :=
  {| stateDir := "/tmp/state-launcher"; networkName := "mainnet";
     installSignalHandlersOpt := None |}.

Definition sampleApi : Api := {| apiHost := "127.0.0.1"; apiPortNumber := 8090 |}.

Definition sampleWallet : WalletStartService :=
  {| infoPort := 8090; infoApi := sampleApi |}.

(** What a listener of other code throws. *)
Definition sampleThrow : Rejection :=
  {| reason := "Error: listener failed";
     loggerStack := "Error at passthroughErrorLogger" |}.

Definition sampleRejection : Rejection :=
  {| reason := "Error: EACCES: permission denied, mkdir '/tmp/state-launcher'";
     loggerStack := "Error at passthroughErrorLogger" |}.

(** ** Invariants and readings of the specification *)

(** [n] copies of [l], one after the other. *)
Fixpoint times {A : Type} (n : nat) (l : list A) : list A :=
  match n with
  | O => []
  | S n' => l ++ times n' l
  end.

(** What one run of [handler] appends to the trace. *)
Definition handlerActions (signal : string) : list Action :=
  [Info ("Received " +:+ signal +:+ " - stopping services...");
   SvcStop Wallet 0; SvcStop Node 0].

(** As long as no listener of ['exit'] throws, ['exit'] has been emitted
    once if [exited] is set, and not at all otherwise. *)
Definition exitInvariant (s : Launcher) : Prop :=
  firstThrown throwsOnExit (listeners s) = None ->
  count isEmitExit (trace s) = if exited s then 1%nat else 0%nat.

(** [process.off] has not been called for [signal] while the cleanup
    closure is still in place, and at most once afterwards. *)
Definition cleanupInvariant (signal : string) (s : Launcher) : Prop :=
  (count (isProcessOff signal) (trace s)
   <= match cleanupSignalHandlers s with
      | removeSignalHandlers => 0
      | noop => 1
      end)%nat.

(** How many operations [a] are in flight. *)
Fixpoint countAsync (a : Async) (l : list Async) : nat :=
  match l with
  | [] => 0%nat
  | b :: l' => if decide (a = b) then S (countAsync a l') else countAsync a l'
  end.

(** The start commands are made one after the other: of [mkdirp],
    [nodeExe] and [walletExe] at most one is in flight, and which one
    is told by the state of the two command promises. *)
Definition chainInvariant (s : Launcher) : Prop :=
  let m := countAsync AMkdirp (pending s) in
  let n := countAsync ANodeExe (pending s) in
  let w := countAsync AWalletExe (pending s) in
  match nodeCommand s, walletCommand s with
  | Pending, Pending =>
      ((m + n)%nat = 1%nat /\ w = 0%nat)
      /\ existsb isCallWalletExe (trace s) = false
  | Fulfilled _, Pending => m = 0%nat /\ n = 0%nat /\ w = 1%nat
  | Fulfilled _, _ => m = 0%nat /\ n = 0%nat /\ w = 0%nat
  | Rejected _, Rejected _ =>
      (m = 0%nat /\ n = 0%nat /\ w = 0%nat)
      /\ existsb isCallWalletExe (trace s) = false
  | _, _ => False
  end.

(** The reading of the specification for the order of the two service
    starts: every start of the wallet service comes after a settlement
    of a start of the node service. *)
Definition walletStartWaitsForNodeStart (tr : list Action) : bool :=
  precededBy (isServiceStartSettled Node) (isSvcStart Wallet) tr.

(** The reading of the specification for the subscriptions: every
    service start and every poller comes after a subscription to
    ['ready'] and after one to ['exit']. *)
Definition subscribedBeforeLaunch (tr : list Action) : bool :=
  precededBy isSubscribeReady isLaunch tr && precededBy isSubscribeExit isLaunch tr.

(** A launcher on which one call of [stop] has completed. *)
Definition stoppedOnce : Launcher :=
  run [EvStop None; EvStopSettled ByUser (inl (ExitedWithCode 0, ExitedWithCode 0))]
    (constructor sampleConfig []).

(** The promise of [svc.start()] has been rejected. *)
Definition isServiceStartRejected (svc : Service) (a : Action) : bool :=
  match a with
  | ServiceStartSettled svc' false => bool_decide (svc' = svc)
  | _ => false
  end.

(** The reading of the specification for a failed start of the node
    service: the wallet service is not started and every promise of
    [start] is rejected. *)
Definition nodeStartFailureSurfaces (s : Launcher) : Prop :=
  existsb (isServiceStartRejected Node) (trace s) = true ->
  existsb (isSvcStart Wallet) (trace s) = false
  /\ forallb isRejected (startPromises s) = true.

(** The state directory cannot be made, [start] is called, and the start
    of either service is rejected. *)
Definition nodeStartFailure : list Event :=
  [EvMkdirp (Some sampleRejection); EvStart;
   EvServiceStartSettled Node (Some sampleRejection);
   EvServiceStartSettled Wallet (Some sampleRejection)].

(** Both commands are made, [start] is called, both services start, the
    first tick of the poller begins a connection attempt, and the node
    service begins to stop. *)
Definition attemptThenStopping : list Event :=
  [EvMkdirp None; EvNodeExe (inl nodeStartService); EvWalletExe (inl sampleWallet);
   EvStart;
   EvStatusChanged Node Starting; EvStatusChanged Node Started;
   EvStatusChanged Wallet Starting; EvStatusChanged Wallet Started;
   EvTick 0;
   EvStatusChanged Node Stopping].

(** The poller of [timer] has been stopped with no attempt in flight. *)
Definition pollerQuiet (timer : nat) (s : Launcher) : Prop :=
  (timer < length (pollers s))%nat
  /\ timerRunning timer s = false
  /\ connecting timer s = false.

(** Other code listens to ['exit'] with a listener that throws; both
    services exit on their own, each exit calls [stop], and the first of
    the two stops completes. *)
Definition listenerThrowsOnExit : list Event :=
  [EvOnExit (Some sampleThrow);
   EvStatusChanged Wallet Stopped; EvStatusChanged Node Stopped;
   EvStopSettled ByStatusChanged (inl (ExitedWithCode 1, ExitedWithCode 1))].

(** The debug line the continuation of [stop] begins with. *)
Definition isStopCompleted (a : Action) : bool :=
  match a with
  | Debug msg => String.eqb msg "Launcher.stop: both services are stopped."
  | _ => false
  end.

(** The reading of the specification for the result of [stop]: once
    both services have stopped, the promise is fulfilled with the
    combined status. *)
Definition stopResolvesWithStatus (wallet node : ServiceExitStatus)
    (s : Launcher) : Prop :=
  fst (stopThen wallet node s) = inl (mkExitStatus wallet node).

(** Other code listens to ['exit'] with a listener that throws, and
    [stop(5)] is called. *)
Definition stopWithThrowingListener : Launcher :=
  run [EvOnExit (Some sampleThrow); EvStop (Some 5)]
    (constructor sampleConfig []).

(** ** Further observations and invariants *)

Definition isMkdirp (a : Action) : bool :=
  match a with Mkdirp _ => true | _ => false end.

Definition isCallNodeExe (a : Action) : bool :=
  match a with CallNodeExe => true | _ => false end.

Definition isNodeCommandSettled (a : Action) : bool :=
  match a with NodeCommandSettled _ => true | _ => false end.

Definition isWalletCommandSettled (a : Action) : bool :=
  match a with WalletCommandSettled _ => true | _ => false end.

Definition isWalletCommandFulfilled (a : Action) : bool :=
  match a with WalletCommandSettled true => true | _ => false end.

(** The port the wallet command has reported, 0 while there is none. *)
Definition reportedPort (s : Launcher) : Z :=
  match walletCommand s with
  | Fulfilled startService => infoPort startService
  | _ => 0
  end.

(** Every step of the command chain is taken at most once: what has been
    done and what can still be done add up to one. *)
Definition onceInvariant (s : Launcher) : Prop :=
  let m := countAsync AMkdirp (pending s) in
  let n := countAsync ANodeExe (pending s) in
  let w := countAsync AWalletExe (pending s) in
  count isMkdirp (trace s) = 1%nat
  /\ (count isCallNodeExe (trace s) + m <= 1)%nat
  /\ (count isNodeCommandSettled (trace s) + m + n <= 1)%nat
  /\ (count isCallWalletExe (trace s) + m + n <= 1)%nat
  /\ (count isWalletCommandSettled (trace s) + m + n + w <= 1)%nat.

Definition isProcessCall (a : Action) : bool :=
  match a with
  | ProcessOn _ | ProcessOff _ => true
  | _ => false
  end.

(** The listeners of others, as [newLauncher] finds them on [process]. *)
Definition foreignListeners (others : list (string * nat))
    : list (string * ProcessListener) :=
  map (fun l => (fst l, Foreign (snd l))) others.

(** The registrations [installSignalHandlers] makes. *)
Definition ownListeners : list (string * ProcessListener) :=
  map (fun signal => (signal, OwnHandler)) signals.

(** The listeners on [process] are those of others, followed by the
    launcher's own as long as the cleanup closure is in place. *)
Definition processInvariant (others : list (string * nat)) (s : Launcher) : Prop :=
  processListeners s
  = foreignListeners others
    ++ match cleanupSignalHandlers s with
       | removeSignalHandlers => ownListeners
       | noop => []
       end.

Definition isSvcStop (svc : Service) (a : Action) : bool :=
  match a with SvcStop svc' _ => bool_decide (svc' = svc) | _ => false end.

(** The timeouts [svc.stop] has been called with, in order. *)
Fixpoint stopTimeouts (svc : Service) (tr : list Action) : list Z :=
  match tr with
  | [] => []
  | SvcStop svc' t :: tr' =>
      if bool_decide (svc' = svc) then t :: stopTimeouts svc tr'
      else stopTimeouts svc tr'
  | _ :: tr' => stopTimeouts svc tr'
  end.

(** What an emission does to one promise of [start]: a pending promise
    takes the outcome, a settled one keeps its own. *)
Definition settledWith (r p : Promise Api BackendExitedError)
    : Promise Api BackendExitedError :=
  if isPending p then r else p.

(** ['exit'] comes after a stop of [svc], and a [stop] of the launcher is
    in flight only after one. *)
Definition stopRequested (svc : Service) (s : Launcher) : Prop :=
  precededBy (isSvcStop svc) isEmitExit (trace s) = true
  /\ (existsb (isSvcStop svc) (trace s) = false ->
      forall caller, countAsync (ALauncherStop caller) (pending s) = 0%nat).

#[global] Instance SocketConnectOpts_eq_dec : EqDecision SocketConnectOpts.
Proof. solve_decision. Defined.

Definition isSocketConnect (a : Action) : bool :=
  match a with SocketConnect _ _ => true | _ => false end.

(** The options [waitForApi] connects with, for the port [p]. *)
Definition loopback (p : Z) : SocketConnectOpts :=
  {| port := p; host := "127.0.0.1" |}.

(** A connection attempt, if [a] is one, goes to [loopback p], and [p] is
    not 0. *)
Definition connectsTo (p : Z) (a : Action) : bool :=
  match a with
  | SocketConnect _ opts => bool_decide (opts = loopback p) && negb (p =? 0)
  | _ => true
  end.

(** The poller has had its last attempt: its timer is cleared, and its
    client has connected or failed. *)
Definition isSpent (p : Poller) : bool :=
  negb (timerActive p)
  && match client p with
     | Some Connected | Some Failed => true
     | _ => false
     end.

(** What holds of each poller when the port is [p] and [seen] tells
    whether a connection attempt has been made: [addr], once set, is
    [loopback p]; a client exists only after [addr] was set and an
    attempt was made; and the timer of a connected client is cleared. *)
Definition pollerOk (p : Z) (seen : bool) (q : Poller) : bool :=
  match addr q with
  | Some opts => bool_decide (opts = loopback p) && negb (p =? 0)
  | None => true
  end
  && match client q with
     | Some c =>
         match addr q with Some _ => true | None => false end
         && seen
         && match c with Connected => negb (timerActive q) | _ => true end
     | None => true
     end.

Definition pollerInvariant (s : Launcher) : Prop :=
  (forall t q, pollers s !! t = Some q ->
     pollerOk (apiPort s) (existsb isSocketConnect (trace s)) q = true)
  /\ forallb (connectsTo (apiPort s)) (trace s) = true
  /\ (apiPort s <> 0 -> existsb isWalletCommandFulfilled (trace s) = true)
  /\ precededBy isWalletCommandFulfilled isSocketConnect (trace s) = true
  /\ precededBy isSocketConnect isEmitReady (trace s) = true
  /\ (count isEmitReady (trace s) <= length (List.filter isSpent (pollers s)))%nat
  /\ length (pollers s) = length (startPromises s).

Definition isConnectOf (t : nat) (a : Action) : bool :=
  match a with SocketConnect t' _ => Nat.eqb t' t | _ => false end.

Definition isDestroyOf (t : nat) (a : Action) : bool :=
  match a with SocketDestroy t' => Nat.eqb t' t | _ => false end.

(** 1 if the poller of [t] holds a client socket, 0 if not. *)
Definition liveClients (t : nat) (s : Launcher) : nat :=
  match pollers s !! t with
  | Some q => match client q with Some _ => 1%nat | None => 0%nat end
  | None => 0%nat
  end.

(** A poller whose attempt has succeeded: its timer is cleared and its
    socket is connected. *)
Definition connectedPoller : Launcher :=
  run (attemptThenStopping ++ [EvConnect 0]) (constructor sampleConfig []).

(** * Properties *)

(** ** Records and lists *)

Lemma set_startPromises_same (s : Launcher) :
  set_startPromises (startPromises s) s = s.
Proof. destruct s; reflexivity. Qed.

Lemma count_app (p : Action -> bool) (tr1 tr2 : list Action) :
  count p (tr1 ++ tr2) = (count p tr1 + count p tr2)%nat.
Proof.
  induction tr1 as [|a tr1 IH]; simpl; [reflexivity|].
  destruct (p a); rewrite IH; reflexivity.
Qed.

Lemma precededFrom_app (p q : Action -> bool) (tr1 tr2 : list Action) (seen : bool) :
  precededFrom p q seen (tr1 ++ tr2)
  = precededFrom p q seen tr1
    && precededFrom p q (seen || existsb p tr1) tr2.
Proof.
  revert seen; induction tr1 as [|a tr1 IH]; intros seen; simpl.
  - rewrite orb_false_r; reflexivity.
  - rewrite IH, orb_assoc, andb_assoc; reflexivity.
Qed.

Lemma precededFrom_none (p q : Action -> bool) (tr : list Action) (seen : bool) :
  existsb q tr = false -> precededFrom p q seen tr = true.
Proof.
  revert seen; induction tr as [|a tr IH]; intros seen; simpl; [reflexivity|].
  intros H; apply orb_false_iff in H as [Ha Htr].
  rewrite Ha; simpl; apply IH, Htr.
Qed.

(** ** Exit reporting *)

(** C7, as amended.  [exitStatusMessage] is a total function of the
    status: it renders every property of the status object with
    [serviceExitStatusMessage], one line each, in the property order of
    the object, and joins the lines with a newline.  For the object
    [{ wallet, node }] that [stop] builds, and returns unless a listener
    of ['exit'] throws, the wallet line comes first and the node line
    second. *)
Theorem C7_exitStatusMessage_wallet_line_first
    (render : ServiceExitStatus -> string) :
  (forall status : ExitStatus,
     exitStatusMessage render status
     = join newline (map (fun kv => render (snd kv)) status))
  /\ (forall wallet node : ServiceExitStatus,
        exitStatusMessage render (mkExitStatus wallet node)
        = walletLineFirst render wallet node)
  /\ (forall wallet node s,
        match fst (stopThen wallet node s) with
        | inl status =>
            exitStatusMessage render status
            = render wallet +:+ newline +:+ render node
        | inr _ => True
        end).
Proof.
  split; [|split]; try reflexivity.
  intros wallet node s. unfold stopThen. cbv zeta.
  destruct (negb (exited _)); [|reflexivity].
  destruct (emitExit _ _) as [[err|] s']; [exact I | reflexivity].
Qed.

(** C7, as stated, fails: for a wallet that exited with status 0 and a
    node killed by SIGKILL, the message is not the node line followed by
    the wallet line. *)
Lemma C7_node_line_is_not_first :
  exitStatusMessage sampleExitStatusMessage
    (mkExitStatus (ExitedWithCode 0) (ExitedWithSignal "SIGKILL"))
  <> nodeLineFirst sampleExitStatusMessage
       (ExitedWithCode 0) (ExitedWithSignal "SIGKILL").
Proof. vm_compute. discriminate. Qed.

(** ** Signal handlers *)

Lemma processListeners_installSignalHandlers (s : Launcher) :
  processListeners (installSignalHandlers s)
  = processListeners s ++ map (fun signal => (signal, OwnHandler)) signals.
Proof. cbn. rewrite <- !app_assoc. reflexivity. Qed.

Lemma foreign_not_own (signal : string) (others : list (string * nat)) :
  (signal, OwnHandler) ∉ map (fun l => (fst l, Foreign (snd l))) others.
Proof.
  induction others as [|o others IH]; simpl.
  - apply not_elem_of_nil.
  - intros H; apply elem_of_cons in H as [H|H]; [discriminate H | exact (IH H)].
Qed.

Lemma removeLast_installed (signal : string)
    (front back : list (string * ProcessListener)) :
  (signal, OwnHandler) ∉ back ->
  rev (removeFirst (signal, OwnHandler) (rev (front ++ (signal, OwnHandler) :: back)))
  = front ++ back.
Proof.
  intros Hback. rewrite rev_app_distr; simpl. rewrite <- app_assoc; simpl.
  assert (Hrm : forall pre post : list (string * ProcessListener),
             (signal, OwnHandler) ∉ pre ->
             removeFirst (signal, OwnHandler) (pre ++ (signal, OwnHandler) :: post)
             = pre ++ post).
  { induction pre as [|y pre IH]; simpl; intros post Hpre.
    - destruct (decide ((signal, OwnHandler) = (signal, OwnHandler))); [reflexivity|contradiction].
    - apply not_elem_of_cons in Hpre as [Hne Hpre].
      destruct (decide ((signal, OwnHandler) = y)); [contradiction|].
      rewrite (IH post Hpre); reflexivity. }
  rewrite Hrm.
  - rewrite rev_app_distr, !rev_involutive. reflexivity.
  - intros Hin. apply Hback. apply list_elem_of_In, in_rev.
    apply list_elem_of_In. exact Hin.
Qed.

Lemma cleanup_after_install (others : list (string * nat)) (s : Launcher) :
  processListeners s = map (fun l => (fst l, Foreign (snd l))) others ->
  processListeners (callCleanupSignalHandlers (installSignalHandlers s))
  = processListeners s.
Proof.
  intros Hs. cbn. rewrite Hs.
  set (F := map (fun l => (fst l, Foreign (snd l))) others).
  rewrite <- !app_assoc. simpl.
  rewrite (removeLast_installed "SIGINT" F).
  2:{ intros H. repeat (apply elem_of_cons in H as [H|H]; [discriminate H|]).
      inversion H. }
  rewrite (removeLast_installed "SIGTERM" F).
  2:{ intros H. repeat (apply elem_of_cons in H as [H|H]; [discriminate H|]).
      inversion H. }
  rewrite (removeLast_installed "SIGHUP" F).
  2:{ intros H. repeat (apply elem_of_cons in H as [H|H]; [discriminate H|]).
      inversion H. }
  rewrite (removeLast_installed "SIGBREAK" F).
  2:{ apply not_elem_of_nil. }
  apply app_nil_r.
Qed.

(** ** The calls of the listeners *)

Lemma callReady_shape (api : Api) (ls : list Subscription) (s : Launcher) :
  callReady api ls s
  = (firstThrown throwsOnReady ls,
     set_startPromises
       (resolveAll api (called throwsOnReady ls) (startPromises s)) s).
Proof.
  unfold resolveAll.
  revert s; induction ls as [|l ls IH]; intros s.
  - simpl. rewrite set_startPromises_same. reflexivity.
  - destruct l as [promise|promise|[err|]|throws]; simpl; rewrite ?IH;
      rewrite ?set_startPromises_same; try reflexivity.
    unfold settleStartPromise, settleIn.
    destruct (startPromises s !! promise) as [[| |]|]; reflexivity.
Qed.

Lemma callExit_shape (status : ExitStatus) (ls : list Subscription)
    (s : Launcher) :
  callExit status ls s
  = (firstThrown throwsOnExit ls,
     set_startPromises
       (rejectAll status (called throwsOnExit ls) (startPromises s)) s).
Proof.
  unfold rejectAll.
  revert s; induction ls as [|l ls IH]; intros s.
  - simpl. rewrite set_startPromises_same. reflexivity.
  - destruct l as [promise|promise|throws|[err|]]; simpl; rewrite ?IH;
      rewrite ?set_startPromises_same; try reflexivity.
    unfold settleStartPromise, settleIn.
    destruct (startPromises s !! promise) as [[| |]|]; reflexivity.
Qed.

Lemma emitReady_shape (api : Api) (s : Launcher) :
  emitReady api s
  = (firstThrown throwsOnReady (listeners s),
     set_startPromises
       (resolveAll api (called throwsOnReady (listeners s)) (startPromises s))
       (log (EmitReady api) s)).
Proof. unfold emitReady. rewrite callReady_shape. reflexivity. Qed.

Lemma emitExit_shape (status : ExitStatus) (s : Launcher) :
  emitExit status s
  = (firstThrown throwsOnExit (listeners s),
     set_startPromises
       (rejectAll status (called throwsOnExit (listeners s)) (startPromises s))
       (log (EmitExit status) s)).
Proof. unfold emitExit. rewrite callExit_shape. reflexivity. Qed.

Lemma firstThrown_app (throws : Subscription -> option Rejection)
    (l1 l2 : list Subscription) :
  firstThrown throws (l1 ++ l2)
  = match firstThrown throws l1 with
    | Some err => Some err
    | None => firstThrown throws l2
    end.
Proof.
  induction l1 as [|l l1 IH]; simpl; [reflexivity|].
  destruct (throws l); [reflexivity | exact IH].
Qed.

Lemma called_all (throws : Subscription -> option Rejection)
    (ls : list Subscription) :
  firstThrown throws ls = None -> called throws ls = ls.
Proof.
  induction ls as [|l ls IH]; simpl; [reflexivity|].
  destruct (throws l); [discriminate|]. intros H. rewrite (IH H). reflexivity.
Qed.

Lemma signal_shape (signal : string) (s : Launcher) :
  step (EvSignal signal) s
  = let n := registrations signal (processListeners s) in
    set_pending (pending s ++ times n [ASignalStop Wallet; ASignalStop Node])
      (set_trace (trace s ++ times n (handlerActions signal)) s).
Proof.
  unfold step.
  generalize (processListeners s) as ls.
  intros ls; revert s; induction ls as [|l ls IH]; intros s; simpl.
  - rewrite !app_nil_r. destruct s; reflexivity.
  - rewrite IH. unfold registrations; simpl.
    destruct (decide (l = (signal, OwnHandler))) as [e|n].
    + rewrite bool_decide_eq_true_2 by exact e. simpl.
      rewrite <- !app_assoc. reflexivity.
    + rewrite bool_decide_eq_false_2 by exact n. reflexivity.
Qed.

(** ** Case analysis on one turn of the event loop *)

Ltac unfold_methods :=
  unfold step, start, stop, onStatusChanged, stopThen, mkdirpSettles,
    nodeCommandSettles, walletCommandSettles, passthroughErrorLogger,
    ignorePromiseRejection, timerCallback, connectCallback, errorCallback,
    clearInterval, ready, waitForApi, subscribe, setStatus,
    callCleanupSignalHandlers, handlerActions, foreignOn.

Ltac reduce :=
  repeat progress
    (cbv zeta; rewrite ?emitReady_shape, ?emitExit_shape;
     cbn -[emitReady emitExit resolveAll rejectAll called firstThrown]).

Ltac case_split :=
  repeat (reduce;
          match goal with
          | |- context [match ?x with _ => _ end] =>
              lazymatch x with
              | context [match _ with _ => _ end] => fail
              | _ => destruct x eqn:?; try discriminate
              end
          end);
  reduce.

Ltac step_cases e :=
  destruct e; try rewrite signal_shape; unfold_methods; case_split.

Lemma run_invariant (P : Launcher -> Prop) :
  (forall e s, P s -> P (step e s)) ->
  forall events s, P s -> P (run events s).
Proof.
  intros Hstep events. unfold run.
  induction events as [|e events IH]; intros s Hs; simpl; [exact Hs|].
  apply IH, Hstep, Hs.
Qed.

Lemma count_times (p : Action -> bool) (n : nat) (l : list Action) :
  count p l = 0%nat -> count p (times n l) = 0%nat.
Proof.
  intros Hl. induction n as [|n IH]; simpl; [reflexivity|].
  rewrite count_app, Hl, IH. reflexivity.
Qed.

(** ** The ['exit'] event *)

Lemma exitInvariant_constructor (config : LaunchConfig) (others : list (string * nat)) :
  exitInvariant (constructor config others).
Proof.
  unfold exitInvariant, constructor.
  destruct (installSignalHandlersOrDefault config); reflexivity.
Qed.

Lemma exitInvariant_step (e : Event) (s : Launcher) :
  exitInvariant s -> exitInvariant (step e s).
Proof.
  unfold exitInvariant.
  step_cases e; intros Inv Hno; try congruence;
    rewrite ?firstThrown_app in Hno;
    try (destruct (firstThrown throwsOnExit (listeners s));
         [discriminate Hno|]);
    specialize (Inv eq_refl);
    rewrite ?count_app, ?count_times by reflexivity;
    cbn [count isEmitExit]; lia.
Qed.

Lemma exited_stays (e : Event) (s : Launcher) :
  exited s = true -> exited (step e s) = true.
Proof.
  step_cases e; intros Hs; congruence.
Qed.

(** As long as no listener of ['exit'] throws, the trace of a run holds
    at most one emission of ['exit']. *)
Lemma exit_once_unless_a_listener_throws (config : LaunchConfig)
    (others : list (string * nat)) (events : list Event) :
  let s := run events (constructor config others) in
  firstThrown throwsOnExit (listeners s) = None ->
  (count isEmitExit (trace s) <= 1)%nat.
Proof.
  intros s Hno.
  assert (Inv : exitInvariant s).
  { apply run_invariant; [exact exitInvariant_step|].
    apply exitInvariant_constructor. }
  rewrite (Inv Hno). destruct (exited s); lia.
Qed.

(** A completion of [stop] that finds [exited] true emits nothing. *)
Lemma no_emission_once_exited (wallet node : ServiceExitStatus) (s : Launcher) :
  exited s = true ->
  count isEmitExit (trace (snd (stopThen wallet node s)))
  = count isEmitExit (trace s)
  /\ exited (snd (stopThen wallet node s)) = true.
Proof.
  intros Hs. unfold_methods. reduce. rewrite Hs. case_split;
    rewrite ?count_app; cbn [count isEmitExit]; split; (lia || assumption).
Qed.

(** C1 fails on the code.  [stop] emits ['exit'] before it sets [exited]
    and before it removes the signal handlers.  With a listener of
    ['exit'] that throws, the first completion of [stop] emits and
    leaves [exited] false and the handlers in place; the second
    completion emits ['exit'] again. *)
Lemma C1_exit_is_emitted_again_after_a_listener_threw :
  let s1 := run listenerThrowsOnExit (constructor sampleConfig []) in
  let s2 := step (EvStopSettled ByStatusChanged
                    (inl (ExitedWithCode 1, ExitedWithCode 1))) s1 in
  (count isEmitExit (trace s1) = 1%nat
   /\ exited s1 = false
   /\ cleanupSignalHandlers s1 = removeSignalHandlers
   /\ inFlight (ALauncherStop ByStatusChanged) s1 = true)
  /\ (count isEmitExit (trace s2) = 2%nat
      /\ exited s2 = false
      /\ cleanupSignalHandlers s2 = removeSignalHandlers).
Proof. vm_compute. repeat split. Qed.

(** ** [stop] *)

Lemma stopThen_result (wallet node : ServiceExitStatus) (s : Launcher) :
  fst (stopThen wallet node s)
  = if exited s then inl (mkExitStatus wallet node)
    else match firstThrown throwsOnExit (listeners s) with
         | Some err => inr err
         | None => inl (mkExitStatus wallet node)
         end.
Proof. unfold_methods. case_split; reflexivity. Qed.

(** Only the settlement of a [stop] runs the continuation of [stop]. *)
Lemma continuation_frame (e : Event) (s : Launcher) :
  match e with
  | EvStopSettled _ _ => True
  | _ =>
      count isStopCompleted (trace (step e s))
      = count isStopCompleted (trace s)
  end.
Proof.
  step_cases e; try exact I;
    rewrite ?count_app, ?count_times by reflexivity;
    cbn;
    repeat match goal with
      | |- context [String.eqb ?a ?b] =>
          let r := eval cbv in (String.eqb a b) in
          change (String.eqb a b) with r
      end;
    cbn; lia.
Qed.

(** C4, as amended.  [stop(t)] calls [stop(t)] on the wallet service and
    then on the node service in the same turn, 60 standing in for an
    omitted [t], and waits for both results at once: the continuation
    runs in the turn in which the joint promise is fulfilled, and in no
    other.  It builds the status from the two results, and the promise
    of [stop] is fulfilled with that status whether or not this
    completion emits ['exit'], unless a listener of ['exit'] throws
    during the emission; then the promise is rejected with what was
    thrown. *)
Theorem C4_stop_forwards_timeout_and_returns_status :
  (forall timeoutSeconds caller s,
      trace (stop timeoutSeconds caller s)
      = trace s ++ [Debug "Launcher.stop: stopping wallet and node";
                    SvcStop Wallet (default 60 timeoutSeconds);
                    SvcStop Node (default 60 timeoutSeconds)]
      /\ pending (stop timeoutSeconds caller s)
         = pending s ++ [ALauncherStop caller])
  /\ (forall caller s, stop None caller s = stop (Some 60) caller s)
  /\ (forall caller wallet node s,
        inFlight (ALauncherStop caller) s = true ->
        let done := stopThen wallet node (finish (ALauncherStop caller) s) in
        step (EvStopSettled caller (inl (wallet, node))) s
        = match fst done, caller with
          | inr err, ByStatusChanged => passthroughErrorLogger err (snd done)
          | _, _ => snd done
          end)
  /\ (forall wallet node s,
        fst (stopThen wallet node s)
        = if exited s then inl (mkExitStatus wallet node)
          else match firstThrown throwsOnExit (listeners s) with
               | Some err => inr err
               | None => inl (mkExitStatus wallet node)
               end)
  /\ (forall wallet node,
        getProp "wallet" (mkExitStatus wallet node) = Some wallet
        /\ getProp "node" (mkExitStatus wallet node) = Some node)
  /\ (forall e s,
        (forall caller r, e <> EvStopSettled caller r) ->
        count isStopCompleted (trace (step e s))
        = count isStopCompleted (trace s))
  /\ (forall caller r s,
        inFlight (ALauncherStop caller) s = false ->
        step (EvStopSettled caller r) s = s).
Proof.
  split; [|split; [|split; [|split; [|split; [|split]]]]].
  - intros timeoutSeconds caller s. cbn. rewrite <- !app_assoc. split; reflexivity.
  - reflexivity.
  - intros caller wallet node s Hin done. unfold step. rewrite Hin.
    fold done. destruct done as [result s']. reflexivity.
  - exact stopThen_result.
  - intros wallet node. split; reflexivity.
  - intros e s He. pose proof (continuation_frame e s) as Hframe.
    destruct e; try exact Hframe. exfalso. exact (He caller r eq_refl).
  - intros caller r s H. cbn. rewrite H. reflexivity.
Qed.

Lemma C4_stop_forwards_timeout_and_returns_status_witness :
  let s := run [EvStop (Some 5)] (constructor sampleConfig []) in
  let done := stopThen (ExitedWithCode 0) (ExitedWithCode 0)
                (finish (ALauncherStop ByUser) s) in
  step (EvStopSettled ByUser (inl (ExitedWithCode 0, ExitedWithCode 0))) s
  = match fst done, ByUser with
    | inr err, ByStatusChanged => passthroughErrorLogger err (snd done)
    | _, _ => snd done
    end.
Proof.
  apply (proj1 (proj2 (proj2 C4_stop_forwards_timeout_and_returns_status))).
  reflexivity.
Defined.

(** C4, as stated, fails: with a listener of ['exit'] that throws, the
    promise of the [stop] that emits ['exit'] is not fulfilled with the
    status; it is rejected with what the listener throws. *)
Lemma C4_stop_is_rejected_when_a_listener_throws :
  inFlight (ALauncherStop ByUser) stopWithThrowingListener = true
  /\ ~ stopResolvesWithStatus (ExitedWithCode 0) (ExitedWithCode 0)
         (finish (ALauncherStop ByUser) stopWithThrowingListener)
  /\ fst (stopThen (ExitedWithCode 0) (ExitedWithCode 0)
            (finish (ALauncherStop ByUser) stopWithThrowingListener))
     = inr sampleThrow.
Proof.
  split; [reflexivity|]. split; [|reflexivity].
  unfold stopResolvesWithStatus. vm_compute. discriminate.
Qed.

(** ** Signal handlers, continued *)

Lemma registrations_app (signal : string) (l1 l2 : list (string * ProcessListener)) :
  registrations signal (l1 ++ l2)
  = (registrations signal l1 + registrations signal l2)%nat.
Proof. unfold registrations. rewrite List.filter_app, length_app. reflexivity. Qed.

Lemma registrations_foreign (signal : string) (others : list (string * nat)) :
  registrations signal (map (fun l => (fst l, Foreign (snd l))) others) = 0%nat.
Proof.
  unfold registrations. induction others as [|o others IH]; simpl; [reflexivity|].
  rewrite bool_decide_eq_false_2 by discriminate. exact IH.
Qed.

Lemma registrations_own (signal : string) :
  registrations signal (map (fun signal' => (signal', OwnHandler)) signals)
  = if bool_decide (signal ∈ signals) then 1%nat else 0%nat.
Proof.
  destruct (decide (signal ∈ signals)) as [Hin|Hout].
  - rewrite bool_decide_eq_true_2 by exact Hin. unfold signals in Hin.
    repeat (apply elem_of_cons in Hin as [->|Hin]; [vm_compute; reflexivity|]).
    inversion Hin.
  - rewrite bool_decide_eq_false_2 by exact Hout.
    unfold registrations, signals; cbn [map List.filter].
    rewrite !bool_decide_eq_false_2; [reflexivity|..];
      intros H; apply Hout; inversion H; subst; unfold signals;
      repeat (try (apply list_elem_of_here); apply list_elem_of_further).
Qed.

Lemma processListeners_constructor (config : LaunchConfig)
    (others : list (string * nat)) :
  processListeners (constructor config others)
  = map (fun l => (fst l, Foreign (snd l))) others
    ++ if installSignalHandlersOrDefault config
       then map (fun signal => (signal, OwnHandler)) signals
       else [].
Proof.
  unfold constructor.
  destruct (installSignalHandlersOrDefault config).
  - rewrite processListeners_installSignalHandlers. reflexivity.
  - cbn. rewrite app_nil_r. reflexivity.
Qed.

(** C8.  The launcher registers its handler for SIGINT, SIGTERM, SIGHUP
    and SIGBREAK, once each, and for no other signal.  A signal runs the
    handler once per registration; the handler logs the signal and calls
    [stop(0)] on the wallet service and on the node service.  A rejection
    of either call ends in [passthroughErrorLogger], which writes two
    debug lines and changes nothing else. *)
Theorem C8_signal_handlers :
  signals = ["SIGINT"; "SIGTERM"; "SIGHUP"; "SIGBREAK"]%string
  /\ (forall config others signal,
        registrations signal (processListeners (constructor config others))
        = if installSignalHandlersOrDefault config && bool_decide (signal ∈ signals)
          then 1%nat else 0%nat)
  /\ (forall signal s,
        step (EvSignal signal) s
        = Nat.iter (registrations signal (processListeners s)) (handler signal) s)
  /\ (forall signal s,
        trace (handler signal s)
        = trace s ++ [Info ("Received " +:+ signal +:+ " - stopping services...");
                      SvcStop Wallet 0; SvcStop Node 0]
        /\ pending (handler signal s)
           = pending s ++ [ASignalStop Wallet; ASignalStop Node])
  /\ (forall svc err s,
        step (EvSignalStopSettled svc (Some err)) s
        = if inFlight (ASignalStop svc) s
          then set_trace
                 (trace s
                  ++ [ConsoleDebug
                        ("Caught an unhandled promise rejection. The promise location is:"
                         +:+ newline +:+ loggerStack err +:+ newline +:+ newline
                         +:+ "The error follows:");
                      ConsoleDebug (reason err)])
                 (finish (ASignalStop svc) s)
          else s).
Proof.
  split; [reflexivity|]. split; [|split; [|split]].
  - intros config others signal.
    rewrite processListeners_constructor, registrations_app, registrations_foreign.
    destruct (installSignalHandlersOrDefault config); simpl.
    + apply registrations_own.
    + reflexivity.
  - intros signal s. unfold step.
    generalize (processListeners s) as ls. intros ls; revert s.
    induction ls as [|l ls IH]; intros s; simpl; [reflexivity|].
    rewrite IH. unfold registrations; simpl.
    destruct (decide (l = (signal, OwnHandler))) as [e|n].
    + rewrite bool_decide_eq_true_2 by exact e. simpl.
      exact (eq_sym (Nat.iter_succ_r _ (handler signal) s)).
    + rewrite bool_decide_eq_false_2 by exact n. reflexivity.
  - intros signal s. cbn. rewrite <- !app_assoc. split; reflexivity.
  - intros svc err s. unfold step.
    destruct (inFlight (ASignalStop svc) s); [|reflexivity].
    unfold passthroughErrorLogger, log, finish. cbn.
    rewrite <- ?app_assoc. reflexivity.
Qed.

(** C10.  The handler is registered for all four signals unless the
    configuration sets [installSignalHandlers] to [false]; with the field
    omitted the constructor does what it does for [true]. *)
Theorem C10_installSignalHandlers_defaults_to_true :
  (forall dir net others,
      constructor {| stateDir := dir; networkName := net;
                     installSignalHandlersOpt := None |} others
      = constructor {| stateDir := dir; networkName := net;
                       installSignalHandlersOpt := Some true |} others)
  /\ (forall config others,
        forallb (fun signal => handles signal (constructor config others)) signals
        = negb (bool_decide (installSignalHandlersOpt config = Some false)))
  /\ (forall config others,
        existsb (fun signal => handles signal (constructor config others)) signals
        = negb (bool_decide (installSignalHandlersOpt config = Some false)))
  /\ (forall config others,
        cleanupSignalHandlers (constructor config others)
        = if bool_decide (installSignalHandlersOpt config = Some false)
          then noop else removeSignalHandlers).
Proof.
  assert (Hown : forall config others signal,
             handles signal (constructor config others)
             = installSignalHandlersOrDefault config && bool_decide (signal ∈ signals)).
  { intros config others signal. unfold handles.
    rewrite processListeners_constructor.
    destruct (installSignalHandlersOrDefault config); cbn [andb].
    - destruct (decide (signal ∈ signals)) as [Hin|Hout].
      + rewrite (bool_decide_eq_true_2 (signal ∈ signals)) by exact Hin.
        apply bool_decide_eq_true_2, elem_of_app; right.
        apply list_elem_of_In, in_map_iff. exists signal.
        split; [reflexivity|]. apply list_elem_of_In, Hin.
      + rewrite (bool_decide_eq_false_2 (signal ∈ signals)) by exact Hout.
        apply bool_decide_eq_false_2. intros H.
        apply elem_of_app in H as [H|H].
        * exact (foreign_not_own _ _ H).
        * apply list_elem_of_In, in_map_iff in H as [signal' [Heq Hin]].
          inversion Heq; subst. apply Hout, list_elem_of_In, Hin.
    - apply bool_decide_eq_false_2. rewrite app_nil_r. apply foreign_not_own. }
  split; [reflexivity|]. split; [|split].
  - intros [dir net [[|]|]] others; cbn [forallb signals]; rewrite !Hown; reflexivity.
  - intros [dir net [[|]|]] others; cbn [existsb signals]; rewrite !Hown; reflexivity.
  - intros [dir net [[|]|]] others; reflexivity.
Qed.

(** ** Removing the signal handlers *)

Lemma cleanup_is_noop_afterwards (s : Launcher) :
  cleanupSignalHandlers (callCleanupSignalHandlers s) = noop.
Proof.
  unfold callCleanupSignalHandlers.
  destruct (cleanupSignalHandlers s) eqn:E; [exact E | reflexivity].
Qed.

Lemma callCleanup_idempotent (s : Launcher) :
  callCleanupSignalHandlers (callCleanupSignalHandlers s)
  = callCleanupSignalHandlers s.
Proof.
  pose proof (cleanup_is_noop_afterwards s) as Hnoop.
  unfold callCleanupSignalHandlers at 1. rewrite Hnoop. reflexivity.
Qed.

Lemma cleanupInvariant_constructor (signal : string) (config : LaunchConfig)
    (others : list (string * nat)) :
  cleanupInvariant signal (constructor config others).
Proof.
  unfold cleanupInvariant, constructor.
  destruct (installSignalHandlersOrDefault config); cbn; lia.
Qed.

Lemma cleanupInvariant_step (signal : string) (e : Event) (s : Launcher) :
  cleanupInvariant signal s -> cleanupInvariant signal (step e s).
Proof.
  unfold cleanupInvariant.
  step_cases e; intros Inv;
    rewrite ?count_app, ?count_times by reflexivity;
    cbn [count isProcessOff];
    repeat match goal with
      | |- context [String.eqb ?a signal] => destruct (String.eqb a signal) eqn:?
      end;
    repeat match goal with
      | H : String.eqb _ _ = true |- _ => apply String.eqb_eq in H
      end;
    try congruence; try lia.
Qed.

(** C9.  Calling [cleanupSignalHandlers] a second time changes nothing:
    the first call removes the handler from every signal, leaves the
    listeners of others in place and replaces itself by [noop].  So over
    any run [process.off] is called at most once per signal, and a
    completion of [stop] that follows one after which [exited] is set
    only writes its debug line. *)
Theorem C9_cleanup_is_idempotent :
  (forall s,
      callCleanupSignalHandlers (callCleanupSignalHandlers s)
      = callCleanupSignalHandlers s)
  /\ (forall s, cleanupSignalHandlers (callCleanupSignalHandlers s) = noop)
  /\ (forall config others,
        processListeners (callCleanupSignalHandlers (constructor config others))
        = map (fun l => (fst l, Foreign (snd l))) others)
  /\ (forall config others events signal,
        (count (isProcessOff signal)
           (trace (run events (constructor config others))) <= 1)%nat)
  /\ (forall wallet node wallet' node' s,
        let s1 := snd (stopThen wallet node s) in
        exited s1 = true ->
        snd (stopThen wallet' node' s1)
        = log (Debug "Launcher.stop: both services are stopped.") s1).
Proof.
  split; [exact callCleanup_idempotent|].
  split; [exact cleanup_is_noop_afterwards|].
  split; [|split].
  - intros config others. unfold constructor.
    destruct (installSignalHandlersOrDefault config).
    + erewrite cleanup_after_install; reflexivity.
    + reflexivity.
  - intros config others events signal.
    assert (Inv : cleanupInvariant signal (run events (constructor config others))).
    { apply run_invariant; [exact (cleanupInvariant_step signal)|].
      apply cleanupInvariant_constructor. }
    unfold cleanupInvariant in Inv.
    destruct (cleanupSignalHandlers _); lia.
  - intros wallet node wallet' node' s s1 He.
    assert (Hc : cleanupSignalHandlers s1 = noop).
    { revert He. subst s1. unfold_methods. case_split; intros He;
        try reflexivity; try assumption; destruct (exited s); discriminate. }
    unfold stopThen, callCleanupSignalHandlers. cbn. rewrite He. cbn.
    rewrite Hc. reflexivity.
Qed.

Lemma C9_cleanup_is_idempotent_witness :
  snd (stopThen (ExitedWithCode 1) (ExitedWithCode 1)
         (snd (stopThen (ExitedWithCode 0) (ExitedWithCode 0)
                 (constructor sampleConfig []))))
  = log (Debug "Launcher.stop: both services are stopped.")
      (snd (stopThen (ExitedWithCode 0) (ExitedWithCode 0)
              (constructor sampleConfig []))).
Proof.
  apply (proj2 (proj2 (proj2 (proj2 C9_cleanup_is_idempotent)))).
  reflexivity.
Defined.

(** ** The chain of start commands *)

Lemma countAsync_app (a : Async) (l1 l2 : list Async) :
  countAsync a (l1 ++ l2) = (countAsync a l1 + countAsync a l2)%nat.
Proof.
  induction l1 as [|b l1 IH]; simpl; [reflexivity|].
  destruct (decide (a = b)); rewrite IH; reflexivity.
Qed.

Lemma countAsync_removeFirst (a b : Async) (l : list Async) :
  countAsync a (removeFirst b l)
  = if decide (a = b) then Nat.pred (countAsync a l) else countAsync a l.
Proof.
  induction l as [|c l IH]; simpl.
  - destruct (decide (a = b)); reflexivity.
  - destruct (decide (b = c)) as [<-|Hbc].
    + destruct (decide (a = b)) as [->|Hab]; simpl.
      * destruct (decide (b = b)); [reflexivity|contradiction].
      * destruct (decide (a = b)); [contradiction|reflexivity].
    + simpl. rewrite IH.
      destruct (decide (a = c)) as [->|Hac]; destruct (decide (c = b)) as [->|Hcb];
        try contradiction; try reflexivity;
        destruct (decide (a = b)); reflexivity.
Qed.

Lemma countAsync_times (a : Async) (n : nat) (l : list Async) :
  countAsync a l = 0%nat -> countAsync a (times n l) = 0%nat.
Proof.
  intros Hl. induction n as [|n IH]; simpl; [reflexivity|].
  rewrite countAsync_app, Hl, IH. reflexivity.
Qed.

Lemma countAsync_elem (a : Async) (l : list Async) :
  a ∈ l <-> (1 <= countAsync a l)%nat.
Proof.
  induction l as [|b l IH]; simpl.
  - split; [intros H; inversion H | lia].
  - rewrite elem_of_cons, IH. destruct (decide (a = b)); split; intros H.
    + lia.
    + left; assumption.
    + destruct H as [H|H]; [contradiction|exact H].
    + right; exact H.
Qed.

Lemma inFlight_true (a : Async) (s : Launcher) :
  inFlight a s = true -> (1 <= countAsync a (pending s))%nat.
Proof. unfold inFlight. intros H. apply bool_decide_eq_true_1 in H. apply countAsync_elem, H. Qed.

Lemma existsb_times (p : Action -> bool) (n : nat) (l : list Action) :
  existsb p l = false -> existsb p (times n l) = false.
Proof.
  intros Hl. induction n as [|n IH]; simpl; [reflexivity|].
  rewrite existsb_app, Hl, IH. reflexivity.
Qed.

Lemma chainInvariant_constructor (config : LaunchConfig) (others : list (string * nat)) :
  chainInvariant (constructor config others).
Proof.
  unfold chainInvariant, constructor.
  destruct (installSignalHandlersOrDefault config); cbn; auto.
Qed.

Ltac use_inFlight :=
  repeat match goal with
    | H : inFlight _ _ = true |- _ => apply inFlight_true in H
    end.

Lemma chain_frame (e : Event) (s : Launcher) :
  match e with
  | EvMkdirp _ | EvNodeExe _ | EvWalletExe _ => True
  | _ =>
      nodeCommand (step e s) = nodeCommand s
      /\ walletCommand (step e s) = walletCommand s
      /\ countAsync AMkdirp (pending (step e s)) = countAsync AMkdirp (pending s)
      /\ countAsync ANodeExe (pending (step e s)) = countAsync ANodeExe (pending s)
      /\ countAsync AWalletExe (pending (step e s)) = countAsync AWalletExe (pending s)
      /\ existsb isCallWalletExe (trace (step e s))
         = existsb isCallWalletExe (trace s)
  end.
Proof.
  step_cases e; try exact I;
    rewrite ?countAsync_app, ?countAsync_removeFirst, ?existsb_app,
      ?countAsync_times, ?existsb_times by reflexivity;
    cbn; rewrite ?orb_false_r, ?Nat.add_0_r; repeat split; reflexivity.
Qed.

Lemma chainInvariant_step (e : Event) (s : Launcher) :
  chainInvariant s -> chainInvariant (step e s).
Proof.
  pose proof (chain_frame e s) as Hframe.
  destruct e;
    try (destruct Hframe as (Hn & Hw & Hm & Hne & Hwe & Htr);
         unfold chainInvariant; rewrite Hn, Hw, Hm, Hne, Hwe, Htr;
         exact (fun Inv => Inv));
    clear Hframe; unfold chainInvariant;
    unfold_methods; case_split; use_inFlight; intros Inv;
    rewrite ?countAsync_app, ?countAsync_removeFirst, ?existsb_app by reflexivity;
    cbn; rewrite ?orb_false_r;
    try contradiction; try discriminate;
    repeat case_decide; try congruence; intuition lia.
Qed.

Ltac solve_preceded Inv :=
  unfold precededBy in *;
  rewrite ?precededFrom_app, ?Inv, ?existsb_app;
  rewrite ?(precededFrom_none _ _ (times _ _)) by (apply existsb_times; reflexivity);
  cbn; rewrite ?orb_true_r, ?andb_true_r; reflexivity.

Lemma walletExe_after_node_command_step (e : Event) (s : Launcher) :
  precededBy isNodeCommandFulfilled isCallWalletExe (trace s) = true ->
  precededBy isNodeCommandFulfilled isCallWalletExe (trace (step e s)) = true.
Proof.
  step_cases e; intros Inv; solve_preceded Inv.
Qed.

Lemma wallet_start_after_node_start_step (e : Event) (s : Launcher) :
  precededBy (isSvcStart Node) (isSvcStart Wallet) (trace s) = true ->
  precededBy (isSvcStart Node) (isSvcStart Wallet) (trace (step e s)) = true.
Proof.
  step_cases e; intros Inv; solve_preceded Inv.
Qed.

Lemma trace_constructor (config : LaunchConfig) (others : list (string * nat)) :
  trace (constructor config others)
  = [Debug "Launcher init";
     Info ("Creating state directory " +:+ stateDir config
           +:+ " (if it doesn't already exist)");
     Mkdirp (stateDir config)]
    ++ if installSignalHandlersOrDefault config then map ProcessOn signals else [].
Proof.
  unfold constructor. destruct (installSignalHandlersOrDefault config); reflexivity.
Qed.

Lemma trace_start (s : Launcher) :
  trace (start s)
  = trace s ++ [SvcStart Node; SvcStart Wallet; Debug "waitForApi";
                SetInterval (length (pollers s)) 250;
                On (OnReady (length (startPromises s)));
                On (OnExit (length (startPromises s)))].
Proof. cbn. rewrite <- !app_assoc. reflexivity. Qed.

(** C2, as amended.  [start] calls [walletService.start()] in the same
    turn as [nodeService.start()], right after it and without waiting
    for it to settle.  The explicit chaining is between the start
    commands: in every run [walletExe] is called only after the node
    command promise has been fulfilled. *)
Theorem C2_wallet_command_chained_to_node_command :
  (forall config others events,
      precededBy isNodeCommandFulfilled isCallWalletExe
        (trace (run events (constructor config others))) = true)
  /\ (forall s,
        trace (start s)
        = trace s ++ [SvcStart Node; SvcStart Wallet; Debug "waitForApi";
                      SetInterval (length (pollers s)) 250;
                      On (OnReady (length (startPromises s)));
                      On (OnExit (length (startPromises s)))])
  /\ (forall config others events,
        precededBy (isSvcStart Node) (isSvcStart Wallet)
          (trace (run events (constructor config others))) = true).
Proof.
  split; [|split].
  - intros config others events.
    apply (run_invariant
             (fun s => precededBy isNodeCommandFulfilled isCallWalletExe (trace s) = true)).
    + exact walletExe_after_node_command_step.
    + rewrite trace_constructor.
      destruct (installSignalHandlersOrDefault config); reflexivity.
  - exact trace_start.
  - intros config others events.
    apply (run_invariant
             (fun s => precededBy (isSvcStart Node) (isSvcStart Wallet) (trace s) = true)).
    + exact wallet_start_after_node_start_step.
    + rewrite trace_constructor.
      destruct (installSignalHandlersOrDefault config); reflexivity.
Qed.

(** C2, as stated, fails: when [start] is called on a new launcher, the
    wallet service is started although no start of the node service has
    settled. *)
Lemma C2_wallet_start_does_not_wait_for_node_start :
  walletStartWaitsForNodeStart
    (trace (run [EvStart] (constructor sampleConfig []))) = false.
Proof. vm_compute. reflexivity. Qed.

(** ** Subscriptions and the promises of [start] *)

Lemma length_settleIn (promise : nat) (r : Promise Api BackendExitedError)
    (ps : list (Promise Api BackendExitedError)) :
  length (settleIn promise r ps) = length ps.
Proof.
  unfold settleIn. destruct (ps !! promise) as [[| |]|]; try reflexivity.
  apply length_insert.
Qed.

Lemma length_resolveAll (api : Api) (ls : list Subscription)
    (ps : list (Promise Api BackendExitedError)) :
  length (resolveAll api ls ps) = length ps.
Proof.
  unfold resolveAll. revert ps; induction ls as [|l ls IH]; intros ps; simpl;
    [reflexivity|].
  rewrite IH. destruct l; try reflexivity. apply length_settleIn.
Qed.

Lemma length_rejectAll (status : ExitStatus) (ls : list Subscription)
    (ps : list (Promise Api BackendExitedError)) :
  length (rejectAll status ls ps) = length ps.
Proof.
  unfold rejectAll. revert ps; induction ls as [|l ls IH]; intros ps; simpl;
    [reflexivity|].
  rewrite IH. destruct l; try reflexivity. apply length_settleIn.
Qed.

(** Only [start] makes a promise, and listeners are only added, at the
    end. *)
Lemma subscriptions_frame (e : Event) (s : Launcher) :
  match e with
  | EvStart => True
  | _ =>
      (exists ls, listeners (step e s) = listeners s ++ ls)
      /\ length (startPromises (step e s)) = length (startPromises s)
  end.
Proof.
  step_cases e; try exact I;
    rewrite ?length_resolveAll, ?length_rejectAll;
    (split; [|reflexivity]);
    try (eexists; reflexivity); exists []; rewrite app_nil_r; reflexivity.
Qed.

Lemma allSubscribed_spec (s : Launcher) :
  allSubscribed s = true
  <-> forall promise, (promise < length (startPromises s))%nat ->
        OnReady promise ∈ listeners s /\ OnExit promise ∈ listeners s.
Proof.
  unfold allSubscribed. rewrite forallb_forall. split.
  - intros H promise Hlt.
    specialize (H promise). rewrite in_seq in H.
    assert (Hb := H ltac:(lia)). apply andb_true_iff in Hb as [H1 H2].
    split; eapply bool_decide_eq_true_1; eassumption.
  - intros H promise Hin. apply in_seq in Hin.
    destruct (H promise ltac:(lia)) as [H1 H2].
    apply andb_true_iff; split; apply bool_decide_eq_true_2; assumption.
Qed.

Lemma allSubscribed_step (e : Event) (s : Launcher) :
  allSubscribed s = true -> allSubscribed (step e s) = true.
Proof.
  pose proof (subscriptions_frame e s) as Hframe.
  rewrite !allSubscribed_spec. intros Inv.
  destruct e;
    try (pose proof (proj1 Hframe) as [ls Hls]; rewrite Hls, (proj2 Hframe);
         intros promise Hlt; destruct (Inv promise Hlt) as [H1 H2];
         split; rewrite elem_of_app; auto).
  clear Hframe. cbn. intros promise Hlt.
  rewrite length_app in Hlt; simpl in Hlt.
  destruct (decide (promise = length (startPromises s))) as [->|Hne].
  - split; rewrite !elem_of_app, !list_elem_of_singleton; auto.
  - destruct (Inv promise ltac:(lia)) as [H1 H2].
    split; rewrite !elem_of_app; auto.
Qed.

Lemma settleIn_stays_settled (promise k : nat) (r : Promise Api BackendExitedError)
    (ps : list (Promise Api BackendExitedError)) :
  (k < length ps)%nat -> ps !! k <> Some Pending ->
  settleIn promise r ps !! k <> Some Pending.
Proof.
  intros Hlt Hk. unfold settleIn.
  destruct (ps !! promise) as [[| |]|] eqn:Hp; try exact Hk.
  destruct (decide (promise = k)) as [->|Hne].
  - congruence.
  - rewrite list_lookup_insert_ne by exact Hne. exact Hk.
Qed.

Lemma rejectAll_stays_settled (status : ExitStatus) (ls : list Subscription)
    (k : nat) (ps : list (Promise Api BackendExitedError)) :
  (k < length ps)%nat -> ps !! k <> Some Pending ->
  rejectAll status ls ps !! k <> Some Pending.
Proof.
  unfold rejectAll. revert ps; induction ls as [|l ls IH]; intros ps Hlt Hk; simpl;
    [exact Hk|].
  destruct l; try (apply IH; assumption).
  apply IH.
  - rewrite length_settleIn; exact Hlt.
  - apply settleIn_stays_settled; assumption.
Qed.

(** The listener of ['exit'] that [start] registers settles its promise. *)
Lemma rejectAll_settles (status : ExitStatus) (ls : list Subscription)
    (k : nat) (ps : list (Promise Api BackendExitedError)) :
  (k < length ps)%nat -> OnExit k ∈ ls ->
  rejectAll status ls ps !! k <> Some Pending.
Proof.
  revert ps; induction ls as [|l ls IH]; intros ps Hlt Hin.
  - inversion Hin.
  - apply elem_of_cons in Hin as [<-|Hin].
    + change (rejectAll status (OnExit k :: ls) ps)
        with (rejectAll status ls
                (settleIn k (Rejected {| errorStatus := status |}) ps)).
      apply rejectAll_stays_settled.
      * rewrite length_settleIn; exact Hlt.
      * unfold settleIn.
        destruct (ps !! k) as [[| |]|] eqn:Hk; try congruence.
        rewrite list_lookup_insert_eq by exact Hlt. discriminate.
    + destruct l; try (apply IH; assumption).
      change (rejectAll status (OnExit promise :: ls) ps)
        with (rejectAll status ls
                (settleIn promise (Rejected {| errorStatus := status |}) ps)).
      apply IH; [rewrite length_settleIn; exact Hlt | exact Hin].
Qed.

Lemma allSubscribed_constructor (config : LaunchConfig)
    (others : list (string * nat)) :
  allSubscribed (constructor config others) = true.
Proof.
  unfold constructor. destruct (installSignalHandlersOrDefault config); reflexivity.
Qed.

(** An emission of ['exit'] rejects the promises whose listeners it gets
    to. *)
Lemma startPromises_stopThen (wallet node : ServiceExitStatus) (s : Launcher) :
  exited s = false ->
  startPromises (snd (stopThen wallet node s))
  = rejectAll (mkExitStatus wallet node) (called throwsOnExit (listeners s))
      (startPromises s).
Proof.
  intros Hs. unfold_methods. reduce. rewrite Hs. case_split; reflexivity.
Qed.

Lemma stopThen_returns (wallet node : ServiceExitStatus) (s : Launcher)
    (status : ExitStatus) :
  exited s = false ->
  fst (stopThen wallet node s) = inl status ->
  firstThrown throwsOnExit (listeners s) = None.
Proof.
  intros Hs. rewrite stopThen_result, Hs.
  destruct (firstThrown throwsOnExit (listeners s)); [discriminate | reflexivity].
Qed.

(** C3, as amended.  [start] starts the node service, the wallet service
    and the poller first and subscribes to ['ready'] and ['exit'] last,
    all in one turn in which nothing is emitted.  So in every state a
    run reaches, every promise [start] has returned has both of its
    listeners registered, and the first emission of ['exit'], when it
    returns, leaves none of them pending. *)
Theorem C3_subscribed_in_the_turn_of_start :
  (forall s,
      trace (start s)
      = trace s ++ [SvcStart Node; SvcStart Wallet; Debug "waitForApi";
                    SetInterval (length (pollers s)) 250;
                    On (OnReady (length (startPromises s)));
                    On (OnExit (length (startPromises s)))]
      /\ listeners (start s)
         = listeners s ++ [OnReady (length (startPromises s));
                           OnExit (length (startPromises s))]
      /\ startPromises (start s) = startPromises s ++ [Pending])
  /\ (forall config others events,
        allSubscribed (run events (constructor config others)) = true)
  /\ (forall config others events wallet node status,
        let s := run events (constructor config others) in
        exited s = false ->
        fst (stopThen wallet node s) = inl status ->
        forallb (fun p => negb (isPending p))
          (startPromises (snd (stopThen wallet node s))) = true).
Proof.
  assert (Hsub : forall config others events,
             allSubscribed (run events (constructor config others)) = true).
  { intros config others events.
    apply (run_invariant (fun s => allSubscribed s = true)).
    - exact allSubscribed_step.
    - apply allSubscribed_constructor. }
  split; [|split].
  - intros s. split; [apply trace_start|]. split.
    + cbn. rewrite <- !app_assoc. reflexivity.
    + reflexivity.
  - exact Hsub.
  - intros config others events wallet node status s Hs Hret.
    rewrite startPromises_stopThen by exact Hs.
    rewrite (called_all _ _ (stopThen_returns _ _ _ _ Hs Hret)).
    apply forallb_forall. intros p Hp.
    apply list_elem_of_In, list_elem_of_lookup in Hp as [k Hk].
    assert (Hlt : (k < length (startPromises s))%nat).
    { rewrite <- (length_rejectAll (mkExitStatus wallet node) (listeners s)).
      eapply lookup_lt_Some; exact Hk. }
    pose proof (proj1 (allSubscribed_spec s) (Hsub config others events) k Hlt)
      as [_ Hexit].
    pose proof (rejectAll_settles (mkExitStatus wallet node) _ k _ Hlt Hexit) as Hnp.
    destruct p; [congruence | reflexivity | reflexivity].
Qed.

Lemma C3_subscribed_in_the_turn_of_start_witness :
  forallb (fun p => negb (isPending p))
    (startPromises
       (snd (stopThen (ExitedWithCode 0) (ExitedWithCode 1)
               (run [EvStart; EvStart] (constructor sampleConfig []))))) = true.
Proof.
  apply (proj2 (proj2 C3_subscribed_in_the_turn_of_start)
           sampleConfig [] [EvStart; EvStart] (ExitedWithCode 0) (ExitedWithCode 1)
           (mkExitStatus (ExitedWithCode 0) (ExitedWithCode 1)));
    reflexivity.
Defined.

(** C3, as stated, fails: when [start] is called on a new launcher, the
    service starts and the poller come before the subscriptions. *)
Lemma C3_launch_precedes_subscription :
  subscribedBeforeLaunch (trace (run [EvStart] (constructor sampleConfig []))) = false.
Proof. vm_compute. reflexivity. Qed.

(** ** Failure of the node command, and rejection of [start] *)

Lemma settleIn_lookup_rejected (promise k : nat)
    (r : Promise Api BackendExitedError) (err : BackendExitedError)
    (ps : list (Promise Api BackendExitedError)) :
  settleIn promise r ps !! k = Some (Rejected err) ->
  ps !! k = Some (Rejected err) \/ r = Rejected err.
Proof.
  unfold settleIn.
  destruct (ps !! promise) as [[| |]|] eqn:Hp; auto.
  destruct (decide (promise = k)) as [->|Hne].
  - intros H. rewrite list_lookup_insert_eq in H by (eapply lookup_lt_Some; exact Hp).
    right; congruence.
  - rewrite list_lookup_insert_ne by exact Hne. auto.
Qed.

Lemma resolveAll_lookup_rejected (api : Api) (ls : list Subscription) (k : nat)
    (err : BackendExitedError) (ps : list (Promise Api BackendExitedError)) :
  resolveAll api ls ps !! k = Some (Rejected err) -> ps !! k = Some (Rejected err).
Proof.
  unfold resolveAll. revert ps; induction ls as [|l ls IH]; intros ps H; simpl in H;
    [exact H|].
  apply IH in H. destruct l; try exact H.
  apply settleIn_lookup_rejected in H as [H|H]; [exact H | discriminate H].
Qed.

Lemma rejectAll_lookup_rejected (status : ExitStatus) (ls : list Subscription)
    (k : nat) (err : BackendExitedError) (ps : list (Promise Api BackendExitedError)) :
  rejectAll status ls ps !! k = Some (Rejected err) ->
  ps !! k = Some (Rejected err) \/ err = {| errorStatus := status |}.
Proof.
  unfold rejectAll. revert ps; induction ls as [|l ls IH]; intros ps H; simpl in H;
    [left; exact H|].
  apply IH in H as [H|H]; [|right; exact H]. destruct l; try (left; exact H).
  apply settleIn_lookup_rejected in H as [H|H]; [left; exact H | right; congruence].
Qed.

Lemma trace_grows (e : Event) (s : Launcher) (a : Action) :
  In a (trace s) -> In a (trace (step e s)).
Proof.
  step_cases e; intros H; rewrite ?in_app_iff; auto 10.
Qed.

Lemma rejected_step (e : Event) (s : Launcher) (k : nat) (err : BackendExitedError) :
  startPromises (step e s) !! k = Some (Rejected err) ->
  startPromises s !! k = Some (Rejected err)
  \/ In (EmitExit (errorStatus err)) (trace (step e s)).
Proof.
  step_cases e; intros H; try (left; exact H);
    try (apply rejectAll_lookup_rejected in H as [H| ->]; [left; exact H|];
         right; rewrite ?in_app_iff; simpl; auto 10);
    try (apply resolveAll_lookup_rejected in H; left; exact H).
  destruct (lookup_app_Some (startPromises s) [Pending] k (Rejected err)) as [Hl _].
  destruct (Hl H) as [H1|[_ H1]]; [left; exact H1|].
  destruct (k - length (startPromises s))%nat; simpl in H1; discriminate H1.
Qed.

Lemma rejected_only_by_exit (config : LaunchConfig) (others : list (string * nat))
    (events : list Event) (k : nat) (err : BackendExitedError) :
  startPromises (run events (constructor config others)) !! k = Some (Rejected err) ->
  In (EmitExit (errorStatus err)) (trace (run events (constructor config others))).
Proof.
  revert k err.
  apply (run_invariant
           (fun s => forall k err,
                startPromises s !! k = Some (Rejected err) ->
                In (EmitExit (errorStatus err)) (trace s))).
  - intros e s Inv k err H.
    apply rejected_step in H as [H|H]; [|exact H].
    apply trace_grows. exact (Inv k err H).
  - intros k err H. unfold constructor in H.
    destruct (installSignalHandlersOrDefault config); cbn in H;
      rewrite lookup_nil in H; discriminate H.
Qed.

Lemma chainInvariant_run (config : LaunchConfig) (others : list (string * nat))
    (events : list Event) :
  chainInvariant (run events (constructor config others)).
Proof.
  apply run_invariant; [exact chainInvariant_step|].
  apply chainInvariant_constructor.
Qed.

(** C6, as amended.  When the node command promise is rejected,
    [walletExe] is never called and the wallet command promise is
    rejected as well.  A rejection of [service.start()] is only recorded:
    [ignorePromiseRejection] leaves the promises of [start] as they are.
    A promise of [start] is rejected only by an emission of ['exit'],
    with the status that was emitted. *)
Theorem C6_node_command_rejection_stops_the_chain
    (config : LaunchConfig) (others : list (string * nat)) (events : list Event) :
  let s := run events (constructor config others) in
  (isRejected (nodeCommand s) = true ->
   existsb isCallWalletExe (trace s) = false
   /\ isRejected (walletCommand s) = true
   /\ inFlight AWalletExe s = false)
  /\ (forall svc err,
        step (EvServiceStartSettled svc (Some err)) s
        = if inFlight (AServiceStart svc) s
          then log (ServiceStartSettled svc false) (finish (AServiceStart svc) s)
          else s)
  /\ (forall k err,
        startPromises s !! k = Some (Rejected err) ->
        In (EmitExit (errorStatus err)) (trace s)).
Proof.
  intros s. split; [|split].
  - pose proof (chainInvariant_run config others events) as Inv.
    fold s in Inv. unfold chainInvariant in Inv. intros Hrej.
    destruct (nodeCommand s); try discriminate Hrej.
    destruct (walletCommand s); try contradiction.
    destruct Inv as [(_ & _ & Hw) Hcall].
    repeat split; [exact Hcall|].
    unfold inFlight. apply bool_decide_eq_false_2. rewrite countAsync_elem. lia.
  - intros svc err. unfold step.
    destruct (inFlight (AServiceStart svc) s); reflexivity.
  - intros k err. apply rejected_only_by_exit.
Qed.

Lemma C6_node_command_rejection_stops_the_chain_witness :
  (let s := run [EvMkdirp (Some sampleRejection)] (constructor sampleConfig []) in
   existsb isCallWalletExe (trace s) = false
   /\ isRejected (walletCommand s) = true
   /\ inFlight AWalletExe s = false)
  /\ In (EmitExit (mkExitStatus (ExitedWithCode 0) (ExitedWithCode 0)))
       (trace (run [EvStart; EvStop None;
                    EvStopSettled ByUser (inl (ExitedWithCode 0, ExitedWithCode 0))]
                 (constructor sampleConfig []))).
Proof.
  split.
  - apply (proj1 (C6_node_command_rejection_stops_the_chain
                    sampleConfig [] [EvMkdirp (Some sampleRejection)])).
    reflexivity.
  - apply (proj2 (proj2 (C6_node_command_rejection_stops_the_chain
                           sampleConfig []
                           [EvStart; EvStop None;
                            EvStopSettled ByUser
                              (inl (ExitedWithCode 0, ExitedWithCode 0))]))
             0%nat {| errorStatus := mkExitStatus (ExitedWithCode 0) (ExitedWithCode 0) |}).
    reflexivity.
Defined.

(** C6, as stated, fails: after the start of the node service has been
    rejected, the wallet service has been started all the same and the
    promise of [start] is still pending, with nothing in flight and a
    poller whose ticks change nothing. *)
Lemma C6_start_stays_pending :
  let s := run nodeStartFailure (constructor sampleConfig []) in
  ~ nodeStartFailureSurfaces s
  /\ existsb (isSvcStart Wallet) (trace s) = true
  /\ startPromises s = [Pending]
  /\ pending s = []
  /\ step (EvTick 0) s = s.
Proof.
  cbv zeta. split.
  - unfold nodeStartFailureSurfaces. vm_compute. intros H.
    destruct (H eq_refl) as [Hw _]. discriminate Hw.
  - vm_compute. repeat split.
Qed.

(** ** The poller *)

Lemma stopWaiting_spec (s : Launcher) :
  stopWaiting s = true
  <-> statusValue Started < statusValue (nodeStatus s)
      \/ statusValue Started < statusValue (walletStatus s).
Proof.
  unfold stopWaiting, getStatus. rewrite orb_true_iff, !Z.ltb_lt. reflexivity.
Qed.

Lemma stopWaiting_stopping_or_stopped (s : Launcher) :
  stopWaiting s = true
  <-> (nodeStatus s = Stopping \/ nodeStatus s = Stopped)
      \/ (walletStatus s = Stopping \/ walletStatus s = Stopped).
Proof.
  rewrite stopWaiting_spec.
  destruct (nodeStatus s), (walletStatus s); cbn; intuition (lia || discriminate).
Qed.

(** A tick that finds the stop predicate true clears the timer and does
    nothing else; no later tick of that timer does anything. *)
Lemma tick_with_stop (timer : nat) (s : Launcher) :
  timerRunning timer s = true -> stopWaiting s = true ->
  step (EvTick timer) s = clearInterval timer s
  /\ trace (step (EvTick timer) s) = trace s ++ [ClearInterval timer]
  /\ timerRunning timer (step (EvTick timer) s) = false
  /\ (forall s', timerRunning timer s' = false -> step (EvTick timer) s' = s').
Proof.
  intros Hrun Hstop.
  assert (Hstep : step (EvTick timer) s = clearInterval timer s).
  { unfold step, timerCallback. rewrite Hrun, Hstop. reflexivity. }
  rewrite Hstep. repeat split.
  - unfold timerRunning in *. cbn.
    rewrite list_lookup_alter_eq.
    destruct (pollers s !! timer); [reflexivity | discriminate Hrun].
  - intros s' Hs'. unfold step. rewrite Hs'. reflexivity.
Qed.

Lemma pollers_frame (e : Event) (s : Launcher) :
  match e with
  | EvStart | EvTick _ | EvConnect _ | EvSocketError _ _ => True
  | _ => pollers (step e s) = pollers s
  end.
Proof. step_cases e; try exact I; reflexivity. Qed.

Ltac other_poller Hne :=
  unfold_methods; case_split;
  rewrite ?length_alter, ?list_lookup_alter_ne by exact Hne;
  split; reflexivity.

Lemma pollers_other_timer (e : Event) (t timer : nat) (s : Launcher) :
  t <> timer ->
  match e with
  | EvTick t' | EvConnect t' | EvSocketError t' _ => t' = t
  | _ => False
  end ->
  pollers (step e s) !! timer = pollers s !! timer
  /\ length (pollers (step e s)) = length (pollers s).
Proof.
  intros Hne He. destruct e; try contradiction; subst; other_poller Hne.
Qed.

(** With no attempt in flight when the timer is cleared, the poller of
    that timer never calls [ready]: its ticks and its sockets are dead,
    and stay so whatever happens. *)
Lemma pollerQuiet_step (timer : nat) (e : Event) (s : Launcher) :
  pollerQuiet timer s -> pollerQuiet timer (step e s).
Proof.
  intros (Hlt & Hrun & Hconn).
  assert (Hsame : (pollers (step e s) !! timer = pollers s !! timer
                   \/ pollers (step e s) !! timer
                      = setClient Failed <$> pollers s !! timer)
                  /\ (length (pollers s) <= length (pollers (step e s)))%nat).
  { pose proof (pollers_frame e s) as Hframe.
    destruct e; try (rewrite Hframe; split; [left; reflexivity | lia]);
      clear Hframe.
    - cbn. rewrite length_app.
      split; [left; apply lookup_app_l; exact Hlt | lia].
    - destruct (decide (timer0 = timer)) as [->|Hne].
      + unfold step. rewrite Hrun. split; [left; reflexivity | lia].
      + destruct (pollers_other_timer (EvTick timer0) timer0 timer s Hne eq_refl)
          as [H1 H2]. rewrite H1, H2. split; [left; reflexivity | lia].
    - destruct (decide (timer0 = timer)) as [->|Hne].
      + unfold step. rewrite Hconn. split; [left; reflexivity | lia].
      + destruct (pollers_other_timer (EvConnect timer0) timer0 timer s Hne eq_refl)
          as [H1 H2]. rewrite H1, H2. split; [left; reflexivity | lia].
    - destruct (decide (timer0 = timer)) as [->|Hne].
      + unfold step. destruct (socketOpen timer s).
        * cbn. rewrite list_lookup_alter_eq, length_alter.
          split; [right; reflexivity | lia].
        * split; [left; reflexivity | lia].
      + destruct (pollers_other_timer (EvSocketError timer0 err) timer0 timer s
                    Hne eq_refl) as [H1 H2].
        rewrite H1, H2. split; [left; reflexivity | lia]. }
  destruct Hsame as [[Hlook|Hlook] Hlen];
    unfold pollerQuiet, timerRunning, connecting in *; rewrite Hlook.
  - repeat split; [lia | exact Hrun | exact Hconn].
  - destruct (pollers s !! timer) as [q|]; simpl;
      repeat split; try lia; try exact Hrun; reflexivity.
Qed.

(** C5 fails on the code.  The first tick starts a connection attempt;
    the node service begins to stop; the next tick finds the stop
    predicate true and clears the timer, with no ['ready'] so far; then
    the attempt of the first tick succeeds, and its callback emits
    ['ready'] and resolves the promise of [start]. *)
Lemma C5_ready_fires_after_the_stop_tick :
  let s1 := run attemptThenStopping (constructor sampleConfig []) in
  let s2 := step (EvTick 0) s1 in
  let s3 := step (EvConnect 0) s2 in
  (stopWaiting s1 = true /\ timerRunning 0 s1 = true
   /\ count isEmitReady (trace s1) = 0%nat)
  /\ (trace s2 = trace s1 ++ [ClearInterval 0%nat] /\ timerRunning 0 s2 = false)
  /\ (trace s3 = trace s2 ++ [Info "... port is ready."; ClearInterval 0%nat;
                              EmitReady sampleApi]
      /\ startPromises s3 = [Fulfilled sampleApi]).
Proof. vm_compute. repeat split. Qed.

(** * Further properties *)

(** ** The command chain, continued *)

Lemma commands_frame (e : Event) (s : Launcher) :
  match e with
  | EvMkdirp _ | EvNodeExe _ | EvWalletExe _ => True
  | _ =>
      apiPort (step e s) = apiPort s
      /\ count isMkdirp (trace (step e s)) = count isMkdirp (trace s)
      /\ count isCallNodeExe (trace (step e s)) = count isCallNodeExe (trace s)
      /\ count isNodeCommandSettled (trace (step e s))
         = count isNodeCommandSettled (trace s)
      /\ count isCallWalletExe (trace (step e s)) = count isCallWalletExe (trace s)
      /\ count isWalletCommandSettled (trace (step e s))
         = count isWalletCommandSettled (trace s)
  end.
Proof.
  step_cases e; try exact I;
    rewrite ?count_app, ?count_times by reflexivity;
    cbn; rewrite ?Nat.add_0_r; repeat split; reflexivity.
Qed.

Lemma onceInvariant_constructor (config : LaunchConfig) (others : list (string * nat)) :
  onceInvariant (constructor config others).
Proof.
  unfold onceInvariant, constructor.
  destruct (installSignalHandlersOrDefault config); cbn;
    repeat case_decide; try congruence; repeat split; lia.
Qed.

Lemma onceInvariant_step (e : Event) (s : Launcher) :
  onceInvariant s -> onceInvariant (step e s).
Proof.
  pose proof (commands_frame e s) as Hframe.
  pose proof (chain_frame e s) as Hchain.
  destruct e;
    try (destruct Hframe as (_ & H1 & H2 & H3 & H4 & H5);
         destruct Hchain as (_ & _ & Hm & Hn & Hw & _);
         unfold onceInvariant; rewrite H1, H2, H3, H4, H5, Hm, Hn, Hw;
         exact (fun Inv => Inv));
    clear Hframe Hchain; unfold onceInvariant;
    unfold_methods; case_split; use_inFlight; intros Inv;
    rewrite ?count_app, ?countAsync_app, ?countAsync_removeFirst;
    cbn; repeat case_decide; try congruence; lia.
Qed.

Lemma portInvariant_step (e : Event) (s : Launcher) :
  chainInvariant s -> apiPort s = reportedPort s ->
  apiPort (step e s) = reportedPort (step e s).
Proof.
  pose proof (commands_frame e s) as Hframe.
  pose proof (chain_frame e s) as Hchain.
  unfold reportedPort.
  destruct e;
    try (destruct Hframe as (Hp & _); destruct Hchain as (_ & Hw & _);
         rewrite Hp, Hw; exact (fun _ Inv => Inv));
    clear Hframe Hchain; unfold chainInvariant;
    unfold_methods; case_split; use_inFlight; intros Hc Inv;
    try reflexivity; try assumption; try contradiction;
    try discriminate; try lia; congruence.
Qed.

Lemma reachable_commands (config : LaunchConfig) (others : list (string * nat))
    (events : list Event) :
  let s := run events (constructor config others) in
  chainInvariant s /\ onceInvariant s /\ apiPort s = reportedPort s.
Proof.
  apply (run_invariant
           (fun s => chainInvariant s /\ onceInvariant s
                     /\ apiPort s = reportedPort s)).
  - intros e s (Hc & Ho & Hp). split; [|split].
    + apply chainInvariant_step, Hc.
    + apply onceInvariant_step, Ho.
    + apply portInvariant_step; assumption.
  - split; [|split].
    + apply chainInvariant_constructor.
    + apply onceInvariant_constructor.
    + unfold constructor.
      destruct (installSignalHandlersOrDefault config); reflexivity.
Qed.

(** X1.  [apiPort] is 0 until the wallet command is fulfilled, and from
    then on it is the port that command reported: in every state a run
    reaches, [apiPort] equals the reported port, and no later event
    changes it once it is set. *)
Theorem X1_apiPort_is_the_reported_port :
  (forall config others events,
      let s := run events (constructor config others) in
      apiPort s = match walletCommand s with
                  | Fulfilled startService => infoPort startService
                  | _ => 0
                  end)
  /\ (forall config others events e,
        let s := run events (constructor config others) in
        apiPort s <> 0 -> apiPort (step e s) = apiPort s).
Proof.
  split.
  - intros config others events. apply reachable_commands.
  - intros config others events e s Hport.
    destruct (reachable_commands config others events) as (Hc & _ & Hp).
    fold s in Hc, Hp.
    pose proof (portInvariant_step e s Hc Hp) as Hp'.
    pose proof (chainInvariant_step e s Hc) as Hc'.
    pose proof (commands_frame e s) as Hframe.
    destruct e; try (exact (proj1 Hframe)); clear Hframe;
      rewrite Hp in Hport; unfold reportedPort in Hport;
      unfold chainInvariant in Hc;
      destruct (walletCommand s) eqn:Hw; try contradiction;
      destruct (nodeCommand s) eqn:Hn; try contradiction;
      unfold step;
      match goal with
      | |- context [inFlight ?a s] =>
          destruct (inFlight a s) eqn:Hin; [|reflexivity];
          apply inFlight_true in Hin; lia
      end.
Qed.

Lemma X1_apiPort_is_the_reported_port_witness :
  apiPort (step (EvWalletExe (inr sampleRejection))
             (run [EvMkdirp None; EvNodeExe (inl nodeStartService);
                   EvWalletExe (inl sampleWallet)]
                (constructor sampleConfig [])))
  = apiPort (run [EvMkdirp None; EvNodeExe (inl nodeStartService);
                  EvWalletExe (inl sampleWallet)]
               (constructor sampleConfig [])).
Proof.
  apply (proj2 X1_apiPort_is_the_reported_port sampleConfig []
           [EvMkdirp None; EvNodeExe (inl nodeStartService);
            EvWalletExe (inl sampleWallet)]).
  vm_compute. discriminate.
Defined.

(** X2.  The commands are made once: over every run [mkdirp] is called
    exactly once, [nodeExe] and [walletExe] at most once each, and each
    of the two command promises settles at most once. *)
Theorem X2_commands_are_made_once
    (config : LaunchConfig) (others : list (string * nat)) (events : list Event) :
  let tr := trace (run events (constructor config others)) in
  count isMkdirp tr = 1%nat
  /\ (count isCallNodeExe tr <= 1)%nat
  /\ (count isCallWalletExe tr <= 1)%nat
  /\ (count isNodeCommandSettled tr <= 1)%nat
  /\ (count isWalletCommandSettled tr <= 1)%nat.
Proof.
  destruct (reachable_commands config others events) as (_ & Ho & _).
  unfold onceInvariant in Ho. cbv zeta in *. repeat split; lia.
Qed.

(** ** The listeners on [process] over a run *)

Lemma remove_own_listeners (others : list (string * nat)) :
  fold_left
    (fun l signal => rev (removeFirst (signal, OwnHandler) (rev l)))
    signals (foreignListeners others ++ ownListeners)
  = foreignListeners others.
Proof.
  unfold foreignListeners, ownListeners. cbn.
  set (F := map (fun l => (fst l, Foreign (snd l))) others).
  rewrite (removeLast_installed "SIGINT" F).
  2:{ intros H. repeat (apply elem_of_cons in H as [H|H]; [discriminate H|]).
      inversion H. }
  rewrite (removeLast_installed "SIGTERM" F).
  2:{ intros H. repeat (apply elem_of_cons in H as [H|H]; [discriminate H|]).
      inversion H. }
  rewrite (removeLast_installed "SIGHUP" F).
  2:{ intros H. repeat (apply elem_of_cons in H as [H|H]; [discriminate H|]).
      inversion H. }
  rewrite (removeLast_installed "SIGBREAK" F).
  2:{ apply not_elem_of_nil. }
  apply app_nil_r.
Qed.

Lemma process_frame (e : Event) (s : Launcher) :
  match e with
  | EvStopSettled _ _ => True
  | _ =>
      processListeners (step e s) = processListeners s
      /\ cleanupSignalHandlers (step e s) = cleanupSignalHandlers s
      /\ exited (step e s) = exited s
      /\ count isProcessCall (trace (step e s)) = count isProcessCall (trace s)
  end.
Proof.
  step_cases e; try exact I;
    rewrite ?count_app, ?count_times by reflexivity;
    cbn; rewrite ?Nat.add_0_r; repeat split; reflexivity.
Qed.

(** The continuation of [stop] either returns, with the handlers
    removed, or throws and leaves [process] and [exited] alone. *)
Lemma stopThen_process (wallet node : ServiceExitStatus) (s : Launcher) :
  let s' := snd (stopThen wallet node s) in
  match fst (stopThen wallet node s) with
  | inl _ =>
      cleanupSignalHandlers s' = noop
      /\ processListeners s'
         = match cleanupSignalHandlers s with
           | noop => processListeners s
           | removeSignalHandlers =>
               fold_left
                 (fun l signal => rev (removeFirst (signal, OwnHandler) (rev l)))
                 signals (processListeners s)
           end
  | inr _ =>
      cleanupSignalHandlers s' = cleanupSignalHandlers s
      /\ processListeners s' = processListeners s
      /\ exited s' = exited s
      /\ count isProcessCall (trace s') = count isProcessCall (trace s)
  end.
Proof.
  unfold_methods. case_split; rewrite ?count_app; cbn;
    repeat split; try reflexivity; try assumption; lia.
Qed.

(** What the promise of a [stop] in flight is settled with, and the
    state that leaves: the turn of the settlement adds at most the two
    lines of [passthroughErrorLogger]. *)
Lemma stop_settled_state (caller : StopCaller)
    (r : (ServiceExitStatus * ServiceExitStatus) + Rejection) (s : Launcher) :
  inFlight (ALauncherStop caller) s = true ->
  let done := match r with
              | inl (wallet, node) =>
                  stopThen wallet node (finish (ALauncherStop caller) s)
              | inr err => (inr err, finish (ALauncherStop caller) s)
              end in
  let s' := step (EvStopSettled caller r) s in
  processListeners s' = processListeners (snd done)
  /\ cleanupSignalHandlers s' = cleanupSignalHandlers (snd done)
  /\ exited s' = exited (snd done)
  /\ count isProcessCall (trace s') = count isProcessCall (trace (snd done)).
Proof.
  intros Hin. unfold step. rewrite Hin. cbv zeta.
  destruct r as [[wallet node]|err];
    [destruct (stopThen wallet node _) as [[status|err] s']|];
    destruct caller; cbn; rewrite ?count_app; cbn;
    repeat split; try reflexivity; lia.
Qed.

Lemma processInvariant_step (others : list (string * nat)) (e : Event) (s : Launcher) :
  processInvariant others s -> processInvariant others (step e s).
Proof.
  pose proof (process_frame e s) as Hframe.
  unfold processInvariant.
  destruct e;
    try (destruct Hframe as (Hl & Hc & _); rewrite Hl, Hc; exact (fun Inv => Inv)).
  clear Hframe. intros Inv.
  destruct (inFlight (ALauncherStop caller) s) eqn:Hin;
    [|unfold step; rewrite Hin; exact Inv].
  destruct (stop_settled_state caller r s Hin) as (Hl & Hc & _).
  rewrite Hl, Hc. clear Hl Hc.
  destruct r as [[wallet node]|err]; [|exact Inv].
  pose proof (stopThen_process wallet node (finish (ALauncherStop caller) s))
    as Hp.
  destruct (fst (stopThen wallet node _)).
  - destruct Hp as [Hc Hl]. rewrite Hc, Hl.
    cbn [finish set_pending cleanupSignalHandlers processListeners].
    rewrite Inv. destruct (cleanupSignalHandlers s).
    + reflexivity.
    + rewrite app_nil_r. apply remove_own_listeners.
  - destruct Hp as (Hc & Hl & _). rewrite Hc, Hl. exact Inv.
Qed.

Lemma processInvariant_constructor (config : LaunchConfig)
    (others : list (string * nat)) :
  processInvariant others (constructor config others).
Proof.
  unfold processInvariant. rewrite processListeners_constructor.
  unfold constructor.
  destruct (installSignalHandlersOrDefault config); reflexivity.
Qed.

Lemma exited_cleaned_step (e : Event) (s : Launcher) :
  (exited s = true -> cleanupSignalHandlers s = noop) ->
  exited (step e s) = true -> cleanupSignalHandlers (step e s) = noop.
Proof.
  pose proof (process_frame e s) as Hframe.
  destruct e;
    try (destruct Hframe as (_ & Hc & He & _); rewrite Hc, He; exact (fun Inv => Inv)).
  clear Hframe. unfold_methods. case_split; intros Inv He; auto;
    apply Inv; apply negb_false_iff; assumption.
Qed.

Lemma signal_without_handler (signal : string) (s : Launcher) :
  registrations signal (processListeners s) = 0%nat ->
  step (EvSignal signal) s = s.
Proof.
  intros H. rewrite signal_shape, H. cbn. rewrite !app_nil_r.
  destruct s; reflexivity.
Qed.

Lemma processInvariant_run (config : LaunchConfig) (others : list (string * nat))
    (events : list Event) :
  processInvariant others (run events (constructor config others)).
Proof.
  apply run_invariant; [exact (processInvariant_step others)|].
  apply processInvariant_constructor.
Qed.

Lemma registrations_run (config : LaunchConfig) (others : list (string * nat))
    (events : list Event) (signal : string) :
  let s := run events (constructor config others) in
  registrations signal (processListeners s)
  = match cleanupSignalHandlers s with
    | removeSignalHandlers =>
        if bool_decide (signal ∈ signals) then 1%nat else 0%nat
    | noop => 0%nat
    end.
Proof.
  intros s. pose proof (processInvariant_run config others events) as Inv.
  fold s in Inv. unfold processInvariant in Inv.
  rewrite Inv, registrations_app.
  unfold foreignListeners. rewrite registrations_foreign.
  destruct (cleanupSignalHandlers s); [reflexivity|].
  apply registrations_own.
Qed.

(** X3.  In every state a run reaches, the listeners on [process] are
    those other code had registered, in their order, followed by the
    launcher's handler for each of its four signals as long as the
    cleanup closure has not run, and by nothing once it has.  So the
    launcher never removes or reorders a listener of others, and its
    handler is registered exactly once per signal until the cleanup
    closure runs. *)
Theorem X3_process_listeners_over_a_run
    (config : LaunchConfig) (others : list (string * nat)) (events : list Event) :
  let s := run events (constructor config others) in
  processListeners s
  = foreignListeners others
    ++ match cleanupSignalHandlers s with
       | removeSignalHandlers => ownListeners
       | noop => []
       end
  /\ (forall signal,
        registrations signal (processListeners s)
        = match cleanupSignalHandlers s with
          | removeSignalHandlers =>
              if bool_decide (signal ∈ signals) then 1%nat else 0%nat
          | noop => 0%nat
          end).
Proof.
  intros s. split.
  - apply processInvariant_run.
  - intros signal. apply registrations_run.
Qed.

(** X4.  Once [exited] is set the signal handlers are gone: in every
    state a run reaches with [exited] set, the cleanup closure is [noop]
    and a signal, whichever it is, changes nothing. *)
Theorem X4_no_signal_handling_after_exit
    (config : LaunchConfig) (others : list (string * nat)) (events : list Event) :
  let s := run events (constructor config others) in
  exited s = true ->
  cleanupSignalHandlers s = noop
  /\ forall signal, step (EvSignal signal) s = s.
Proof.
  intros s He.
  assert (Hc : cleanupSignalHandlers s = noop).
  { revert He.
    apply (run_invariant
             (fun s => exited s = true -> cleanupSignalHandlers s = noop)).
    - exact exited_cleaned_step.
    - unfold constructor.
      destruct (installSignalHandlersOrDefault config); discriminate. }
  split; [exact Hc|]. intros signal.
  apply signal_without_handler.
  pose proof (registrations_run config others events signal) as Hr.
  cbv zeta in Hr. fold s in Hr. rewrite Hr, Hc. reflexivity.
Qed.

Lemma X4_no_signal_handling_after_exit_witness :
  step (EvSignal "SIGTERM") stoppedOnce = stoppedOnce.
Proof.
  apply (X4_no_signal_handling_after_exit sampleConfig []
           [EvStop None;
            EvStopSettled ByUser (inl (ExitedWithCode 0, ExitedWithCode 0))]).
  reflexivity.
Defined.

Lemma stopThen_without_cleanup (wallet node : ServiceExitStatus) (s : Launcher) :
  cleanupSignalHandlers s = noop ->
  cleanupSignalHandlers (snd (stopThen wallet node s)) = noop
  /\ count isProcessCall (trace (snd (stopThen wallet node s)))
     = count isProcessCall (trace s).
Proof.
  intros Hc. unfold_methods. case_split; rewrite ?count_app; cbn;
    split; try assumption; try lia; congruence.
Qed.

Lemma quiet_process_step (e : Event) (s : Launcher) :
  cleanupSignalHandlers s = noop /\ count isProcessCall (trace s) = 0%nat ->
  cleanupSignalHandlers (step e s) = noop
  /\ count isProcessCall (trace (step e s)) = 0%nat.
Proof.
  pose proof (process_frame e s) as Hframe.
  destruct e;
    try (destruct Hframe as (_ & Hc & _ & Ht); rewrite Hc, Ht;
         exact (fun Inv => Inv)).
  clear Hframe. intros [Hc Ht].
  destruct (inFlight (ALauncherStop caller) s) eqn:Hin;
    [|unfold step; rewrite Hin; split; assumption].
  destruct (stop_settled_state caller r s Hin) as (_ & Hc' & _ & Ht').
  rewrite Hc', Ht'. clear Hc' Ht'.
  destruct r as [[wallet node]|err]; [|split; assumption].
  destruct (stopThen_without_cleanup wallet node
              (finish (ALauncherStop caller) s) Hc) as [H1 H2].
  rewrite H1, H2. split; [reflexivity | exact Ht].
Qed.

(** X5.  With [installSignalHandlers: false] the launcher leaves
    [process] alone for good: over every run it calls neither
    [process.on] nor [process.off], the listeners on [process] stay
    those of others, and a signal changes nothing. *)
Theorem X5_without_signal_handlers
    (config : LaunchConfig) (others : list (string * nat)) (events : list Event) :
  installSignalHandlersOpt config = Some false ->
  let s := run events (constructor config others) in
  count isProcessCall (trace s) = 0%nat
  /\ processListeners s = foreignListeners others
  /\ forall signal, step (EvSignal signal) s = s.
Proof.
  intros Hopt s.
  assert (Inv : cleanupSignalHandlers s = noop
                /\ count isProcessCall (trace s) = 0%nat).
  { apply (run_invariant
             (fun s => cleanupSignalHandlers s = noop
                       /\ count isProcessCall (trace s) = 0%nat)).
    - exact quiet_process_step.
    - unfold constructor, installSignalHandlersOrDefault. rewrite Hopt.
      split; reflexivity. }
  destruct Inv as [Hc Ht]. split; [exact Ht|].
  pose proof (processInvariant_run config others events) as Hp.
  fold s in Hp. unfold processInvariant in Hp. rewrite Hc, app_nil_r in Hp.
  split; [exact Hp|]. intros signal. apply signal_without_handler.
  pose proof (registrations_run config others events signal) as Hr.
  cbv zeta in Hr. fold s in Hr. rewrite Hr, Hc. reflexivity.
Qed.

Lemma X5_without_signal_handlers_witness :
  let s := run [EvStart; EvStop None;
                EvStopSettled ByUser (inl (ExitedWithCode 0, ExitedWithCode 0))]
             (constructor {| stateDir := "/tmp/state-launcher";
                             networkName := "mainnet";
                             installSignalHandlersOpt := Some false |}
                [("SIGINT"%string, 1%nat)]) in
  count isProcessCall (trace s) = 0%nat
  /\ processListeners s = foreignListeners [("SIGINT"%string, 1%nat)]
  /\ forall signal, step (EvSignal signal) s = s.
Proof.
  apply (X5_without_signal_handlers
           {| stateDir := "/tmp/state-launcher"; networkName := "mainnet";
              installSignalHandlersOpt := Some false |}).
  reflexivity.
Defined.

(** ** Completion and failure of [stop] *)

Lemma settleIn_lookup (promise k : nat) (r p : Promise Api BackendExitedError)
    (ps : list (Promise Api BackendExitedError)) :
  ps !! k = Some p ->
  settleIn promise r ps !! k
  = Some (if decide (promise = k) then settledWith r p else p).
Proof.
  intros Hk. unfold settleIn, settledWith.
  destruct (decide (promise = k)) as [->|Hne].
  - rewrite Hk. destruct p; simpl; try exact Hk.
    apply list_lookup_insert_eq. eapply lookup_lt_Some; exact Hk.
  - destruct (ps !! promise) as [[| |]|]; try exact Hk.
    rewrite list_lookup_insert_ne by exact Hne. exact Hk.
Qed.

Lemma settledWith_idem (r p : Promise Api BackendExitedError) :
  isPending r = false -> settledWith r (settledWith r p) = settledWith r p.
Proof. intros Hr. unfold settledWith. destruct p; simpl; try reflexivity. rewrite Hr. reflexivity. Qed.

Lemma rejectAll_lookup (status : ExitStatus) (ls : list Subscription) (k : nat)
    (p : Promise Api BackendExitedError)
    (ps : list (Promise Api BackendExitedError)) :
  ps !! k = Some p ->
  rejectAll status ls ps !! k
  = Some (if bool_decide (OnExit k ∈ ls)
          then settledWith (Rejected {| errorStatus := status |}) p else p).
Proof.
  unfold rejectAll. revert p ps; induction ls as [|l ls IH]; intros p ps Hk.
  - cbn [fold_left]. rewrite bool_decide_eq_false_2 by apply not_elem_of_nil.
    exact Hk.
  - cbn [fold_left].
    destruct (decide (l = OnExit k)) as [->|Hne].
    + pose proof (settleIn_lookup k k (Rejected {| errorStatus := status |}) p ps Hk)
        as Hs.
      rewrite (IH _ _ Hs).
      destruct (decide (k = k)); [|contradiction].
      rewrite (bool_decide_eq_true_2 (OnExit k ∈ OnExit k :: ls))
        by apply list_elem_of_here.
      destruct (bool_decide (OnExit k ∈ ls));
        [rewrite settledWith_idem by reflexivity|]; reflexivity.
    + rewrite (bool_decide_ext (OnExit k ∈ l :: ls) (OnExit k ∈ ls)).
      2:{ rewrite elem_of_cons.
          split; [intros [H|H]; [congruence | exact H] | auto]. }
      destruct l as [j|j|throws|throws]; try apply (IH p ps Hk).
      pose proof (settleIn_lookup j k (Rejected {| errorStatus := status |}) p ps Hk)
        as Hs.
      rewrite (IH _ _ Hs).
      destruct (decide (j = k)) as [->|Hjk]; [contradiction | reflexivity].
Qed.

Lemma resolveAll_lookup (api : Api) (ls : list Subscription) (k : nat)
    (p : Promise Api BackendExitedError)
    (ps : list (Promise Api BackendExitedError)) :
  ps !! k = Some p ->
  resolveAll api ls ps !! k
  = Some (if bool_decide (OnReady k ∈ ls)
          then settledWith (Fulfilled api) p else p).
Proof.
  unfold resolveAll. revert p ps; induction ls as [|l ls IH]; intros p ps Hk.
  - cbn [fold_left]. rewrite bool_decide_eq_false_2 by apply not_elem_of_nil.
    exact Hk.
  - cbn [fold_left].
    destruct (decide (l = OnReady k)) as [->|Hne].
    + pose proof (settleIn_lookup k k (Fulfilled api) p ps Hk) as Hs.
      rewrite (IH _ _ Hs).
      destruct (decide (k = k)); [|contradiction].
      rewrite (bool_decide_eq_true_2 (OnReady k ∈ OnReady k :: ls))
        by apply list_elem_of_here.
      destruct (bool_decide (OnReady k ∈ ls));
        [rewrite settledWith_idem by reflexivity|]; reflexivity.
    + rewrite (bool_decide_ext (OnReady k ∈ l :: ls) (OnReady k ∈ ls)).
      2:{ rewrite elem_of_cons.
          split; [intros [H|H]; [congruence | exact H] | auto]. }
      destruct l as [j|j|throws|throws]; try apply (IH p ps Hk).
      pose proof (settleIn_lookup j k (Fulfilled api) p ps Hk) as Hs.
      rewrite (IH _ _ Hs).
      destruct (decide (j = k)) as [->|Hjk]; [contradiction | reflexivity].
Qed.

Lemma allSubscribed_run (config : LaunchConfig) (others : list (string * nat))
    (events : list Event) :
  allSubscribed (run events (constructor config others)) = true.
Proof.
  apply (run_invariant (fun s => allSubscribed s = true)).
  - exact allSubscribed_step.
  - apply allSubscribed_constructor.
Qed.

(** X6.  The first emission of ['exit'] settles the promises of [start]
    whose listeners it gets to: such a promise, if pending, is rejected
    with a [BackendExitedError] that carries the status
    [{ wallet, node }] of that completion of [stop]; a settled one, and
    one whose listener comes after a listener that throws, is left as it
    is.  When the continuation of [stop] returns, no listener has
    thrown and every pending promise has been rejected.  The message of
    the error is the wallet line, a newline, and the node line. *)
Theorem X6_exit_rejects_the_pending_promises
    (config : LaunchConfig) (others : list (string * nat)) (events : list Event)
    (wallet node : ServiceExitStatus) (k : nat)
    (p : Promise Api BackendExitedError) :
  let s := run events (constructor config others) in
  let err := {| errorStatus := mkExitStatus wallet node |} in
  exited s = false ->
  startPromises s !! k = Some p ->
  startPromises (snd (stopThen wallet node s)) !! k
  = Some (if bool_decide (OnExit k ∈ called throwsOnExit (listeners s))
          then (if isPending p then Rejected err else p) else p)
  /\ (forall status,
        fst (stopThen wallet node s) = inl status ->
        startPromises (snd (stopThen wallet node s)) !! k
        = Some (if isPending p then Rejected err else p))
  /\ forall render,
       errorMessage render err = render wallet +:+ newline +:+ render node.
Proof.
  intros s err He Hk.
  assert (Hall : startPromises (snd (stopThen wallet node s)) !! k
                 = Some (if bool_decide
                              (OnExit k ∈ called throwsOnExit (listeners s))
                         then (if isPending p then Rejected err else p) else p)).
  { rewrite startPromises_stopThen by exact He.
    apply (rejectAll_lookup _ _ _ _ _ Hk). }
  split; [exact Hall|]. split; [|reflexivity].
  intros status Hret. rewrite Hall.
  rewrite (called_all _ _ (stopThen_returns _ _ _ _ He Hret)).
  pose proof (proj1 (allSubscribed_spec s) (allSubscribed_run config others events) k)
    as Hsub.
  destruct (Hsub ltac:(eapply lookup_lt_Some; exact Hk)) as [_ Hexit].
  rewrite bool_decide_eq_true_2 by exact Hexit. reflexivity.
Qed.

Lemma X6_exit_rejects_the_pending_promises_witness :
  let s := run [EvStart; EvOnExit None; EvStart] (constructor sampleConfig []) in
  let err := {| errorStatus :=
                  mkExitStatus (ExitedWithCode 0) (ExitedWithSignal "SIGKILL") |} in
  let s' := snd (stopThen (ExitedWithCode 0) (ExitedWithSignal "SIGKILL") s) in
  startPromises s' !! 1%nat = Some (Rejected err)
  /\ (forall status,
        fst (stopThen (ExitedWithCode 0) (ExitedWithSignal "SIGKILL") s)
        = inl status ->
        startPromises s' !! 1%nat = Some (Rejected err))
  /\ forall render,
       errorMessage render err
       = render (ExitedWithCode 0) +:+ newline
         +:+ render (ExitedWithSignal "SIGKILL").
Proof.
  apply (X6_exit_rejects_the_pending_promises sampleConfig []
           [EvStart; EvOnExit None; EvStart]
           (ExitedWithCode 0) (ExitedWithSignal "SIGKILL") 1%nat Pending);
    reflexivity.
Defined.

(** A rejected joint stop leaves the launcher as it is; a stop the
    launcher had started itself logs the rejection on the console. *)
Lemma failed_stop_step (caller : StopCaller) (err : Rejection) (s : Launcher) :
  let s' := step (EvStopSettled caller (inr err)) s in
  exited s' = exited s
  /\ cleanupSignalHandlers s' = cleanupSignalHandlers s
  /\ processListeners s' = processListeners s.
Proof.
  unfold step. destruct (inFlight (ALauncherStop caller) s).
  - destruct caller; cbn; repeat split; reflexivity.
  - repeat split; reflexivity.
Qed.

Lemma no_exit_step (e : Event) (s : Launcher) :
  (forall caller status, e <> EvStopSettled caller (inl status)) ->
  exited (step e s) = exited s
  /\ cleanupSignalHandlers (step e s) = cleanupSignalHandlers s
  /\ processListeners (step e s) = processListeners s.
Proof.
  intros He. pose proof (process_frame e s) as Hframe.
  destruct e;
    try (destruct Hframe as (Hp & Hc & Hx & _); rewrite Hp, Hc, Hx;
         repeat split; reflexivity).
  destruct r as [status|err].
  - exfalso. exact (He caller status eq_refl).
  - apply failed_stop_step.
Qed.

Lemma no_exit_run (events : list Event) (s : Launcher) :
  (forall caller status, ~ In (EvStopSettled caller (inl status)) events) ->
  exited (run events s) = exited s
  /\ cleanupSignalHandlers (run events s) = cleanupSignalHandlers s
  /\ processListeners (run events s) = processListeners s.
Proof.
  unfold run. revert s.
  induction events as [|e events IH]; intros s Hno; simpl;
    [repeat split; reflexivity|].
  destruct (IH (step e s)) as (Hx & Hc & Hp).
  { intros caller status Hin. apply (Hno caller status). right. exact Hin. }
  destruct (no_exit_step e s) as (Hx' & Hc' & Hp').
  { intros caller status ->. apply (Hno caller status). left. reflexivity. }
  rewrite Hx, Hc, Hp, Hx', Hc', Hp'. repeat split; reflexivity.
Qed.

(** Only a completed joint stop emits ['exit']. *)
Lemma no_emission_step (e : Event) (s : Launcher) :
  (forall caller status, e <> EvStopSettled caller (inl status)) ->
  count isEmitExit (trace (step e s)) = count isEmitExit (trace s).
Proof.
  intros He. destruct e as [| | | | | |? ?|caller [status|err]| | | | | | |];
    try (exfalso; exact (He caller status eq_refl));
    try rewrite signal_shape; unfold_methods; case_split;
    rewrite ?count_app, ?count_times by reflexivity; cbn; lia.
Qed.

Lemma no_emission_run (events : list Event) (s : Launcher) :
  (forall caller status, ~ In (EvStopSettled caller (inl status)) events) ->
  count isEmitExit (trace (run events s)) = count isEmitExit (trace s).
Proof.
  unfold run. revert s.
  induction events as [|e events IH]; intros s Hno; simpl; [reflexivity|].
  rewrite IH.
  - apply no_emission_step. intros caller status ->.
    apply (Hno caller status). left. reflexivity.
  - intros caller status Hin. apply (Hno caller status). right. exact Hin.
Qed.

Lemma count_In (p : Action -> bool) (a : Action) (tr : list Action) :
  In a tr -> p a = true -> (1 <= count p tr)%nat.
Proof.
  intros Hin Hp. induction tr as [|b tr IH]; simpl in *; [contradiction|].
  destruct Hin as [->|Hin]; [rewrite Hp; lia|].
  specialize (IH Hin). destruct (p b); lia.
Qed.

(** X7.  The launcher exits only when a joint stop of the two services
    has completed.  Over every run in which no such stop completes (the
    stops are still in flight, or were rejected), ['exit'] is never
    emitted, [exited] stays false, the signal handlers and the
    listeners on [process] stay as the constructor left them, and no
    promise of [start] is rejected. *)
Theorem X7_no_exit_unless_a_stop_completes
    (config : LaunchConfig) (others : list (string * nat)) (events : list Event) :
  (forall caller status, ~ In (EvStopSettled caller (inl status)) events) ->
  let s := run events (constructor config others) in
  exited s = false
  /\ count isEmitExit (trace s) = 0%nat
  /\ cleanupSignalHandlers s = cleanupSignalHandlers (constructor config others)
  /\ processListeners s = processListeners (constructor config others)
  /\ forall k err, startPromises s !! k <> Some (Rejected err).
Proof.
  intros Hno s.
  destruct (no_exit_run events (constructor config others) Hno) as (Hx & Hc & Hp).
  assert (Hx0 : exited s = false).
  { unfold s. rewrite Hx. unfold constructor.
    destruct (installSignalHandlersOrDefault config); reflexivity. }
  assert (Hcount : count isEmitExit (trace s) = 0%nat).
  { unfold s. rewrite (no_emission_run events _ Hno), trace_constructor.
    destruct (installSignalHandlersOrDefault config); reflexivity. }
  repeat split; try assumption.
  intros k err Hk.
  pose proof (rejected_only_by_exit config others events k err Hk) as Hin.
  fold s in Hin.
  pose proof (count_In isEmitExit _ _ Hin eq_refl). lia.
Qed.

Lemma X7_no_exit_unless_a_stop_completes_witness :
  let events := [EvStart; EvStatusChanged Node Stopped;
                 EvStopSettled ByStatusChanged (inr sampleRejection);
                 EvStop None; EvStopSettled ByUser (inr sampleRejection)] in
  let s := run events (constructor sampleConfig []) in
  exited s = false
  /\ count isEmitExit (trace s) = 0%nat
  /\ cleanupSignalHandlers s = cleanupSignalHandlers (constructor sampleConfig [])
  /\ processListeners s = processListeners (constructor sampleConfig [])
  /\ forall k err, startPromises s !! k <> Some (Rejected err).
Proof.
  apply (X7_no_exit_unless_a_stop_completes sampleConfig []).
  intros caller status H. simpl in H.
  repeat (destruct H as [H|H]; [discriminate H|]). exact H.
Defined.

(** ** The calls of [stop] on the services *)

Lemma stopTimeouts_app (svc : Service) (tr1 tr2 : list Action) :
  stopTimeouts svc (tr1 ++ tr2) = stopTimeouts svc tr1 ++ stopTimeouts svc tr2.
Proof.
  induction tr1 as [|a tr1 IH]; [reflexivity|].
  destruct a; simpl; try exact IH.
  destruct (bool_decide (svc0 = svc)); simpl; rewrite IH; reflexivity.
Qed.

Lemma stopTimeouts_times_handler (signal : string) (n : nat) :
  stopTimeouts Wallet (times n (handlerActions signal))
  = stopTimeouts Node (times n (handlerActions signal)).
Proof.
  induction n as [|n IH]; [reflexivity|].
  cbn [times]. rewrite !stopTimeouts_app, IH. reflexivity.
Qed.

Lemma stop_pairs_step (e : Event) (s : Launcher) :
  stopTimeouts Wallet (trace s) = stopTimeouts Node (trace s) ->
  stopTimeouts Wallet (trace (step e s)) = stopTimeouts Node (trace (step e s)).
Proof.
  destruct e; try rewrite signal_shape; unfold_methods; case_split; intros Inv;
    try fold (handlerActions signal);
    rewrite ?stopTimeouts_app, ?Inv, ?stopTimeouts_times_handler;
    repeat match goal with
      | |- context [stopTimeouts ?v (?a :: ?l)] =>
          let r := eval vm_compute in (stopTimeouts v (a :: l)) in
          change (stopTimeouts v (a :: l)) with r
      end;
    rewrite <- ?app_assoc, ?app_nil_r; reflexivity.
Qed.

(** X8.  The launcher never asks one service to stop without asking the
    other: over every run the timeouts passed to [walletService.stop]
    and those passed to [nodeService.stop] are the same sequence,
    whether the stops come from [stop], from a service that exited or
    from a signal. *)
Theorem X8_services_are_stopped_together
    (config : LaunchConfig) (others : list (string * nat)) (events : list Event) :
  stopTimeouts Wallet (trace (run events (constructor config others)))
  = stopTimeouts Node (trace (run events (constructor config others))).
Proof.
  apply (run_invariant
           (fun s => stopTimeouts Wallet (trace s) = stopTimeouts Node (trace s))).
  - exact stop_pairs_step.
  - rewrite trace_constructor.
    destruct (installSignalHandlersOrDefault config); reflexivity.
Qed.

Lemma existsb_grows (p : Action -> bool) (e : Event) (s : Launcher) :
  existsb p (trace s) = true -> existsb p (trace (step e s)) = true.
Proof.
  rewrite !existsb_exists. intros [a [Hin Hp]].
  exists a. split; [apply trace_grows, Hin | exact Hp].
Qed.

Lemma stop_frame (e : Event) (s : Launcher) (caller : StopCaller) :
  match e with
  | EvStop _ | EvStatusChanged _ _ | EvStopSettled _ _ => True
  | _ =>
      countAsync (ALauncherStop caller) (pending (step e s))
      = countAsync (ALauncherStop caller) (pending s)
      /\ count isEmitExit (trace (step e s)) = count isEmitExit (trace s)
  end.
Proof.
  step_cases e; try exact I;
    rewrite ?count_app, ?countAsync_app, ?countAsync_removeFirst,
      ?count_times, ?countAsync_times by reflexivity;
    cbn; rewrite ?Nat.add_0_r; split; reflexivity.
Qed.

Lemma precededFrom_without (p q : Action -> bool) (tr1 tr2 : list Action) :
  precededBy p q tr1 = true -> count q tr2 = 0%nat ->
  precededBy p q (tr1 ++ tr2) = true.
Proof.
  intros H1 H2. unfold precededBy in *. rewrite precededFrom_app, H1.
  apply precededFrom_none. clear H1.
  induction tr2 as [|a tr2 IH]; [reflexivity|].
  simpl in *. destruct (q a); [discriminate H2 | exact (IH H2)].
Qed.

Lemma precededFrom_seen_true (p q : Action -> bool) (tr : list Action) :
  precededFrom p q true tr = true.
Proof.
  induction tr as [|a tr IH]; simpl; [reflexivity|]. destruct (q a); exact IH.
Qed.

Lemma trace_extends (e : Event) (s : Launcher) :
  exists acts, trace (step e s) = trace s ++ acts.
Proof.
  step_cases e; rewrite <- ?app_assoc;
    try (eexists; reflexivity); exists []; rewrite app_nil_r; reflexivity.
Qed.

Lemma stopRequested_step (svc : Service) (e : Event) (s : Launcher) :
  stopRequested svc s -> stopRequested svc (step e s).
Proof.
  unfold stopRequested. intros [Hpre Hnone].
  pose proof (stop_frame e s) as Hframe.
  destruct (trace_extends e s) as [acts Hacts].
  destruct e;
    try (split;
         [ rewrite Hacts; apply precededFrom_without; [exact Hpre|];
           pose proof (proj2 (Hframe ByUser)) as Hc;
           rewrite Hacts, count_app in Hc; lia
         | intros Hex caller; rewrite (proj1 (Hframe caller)); apply Hnone;
           destruct (existsb (isSvcStop svc) (trace s)) eqn:Hs; [|reflexivity];
           rewrite (existsb_grows _ _ _ Hs) in Hex; discriminate Hex ]);
    clear Hframe acts Hacts.
  - (* stop *)
    split.
    + cbn. apply precededFrom_without.
      * rewrite <- !app_assoc. apply precededFrom_without; [exact Hpre|reflexivity].
      * reflexivity.
    + cbn. rewrite !existsb_app. destruct svc; cbn;
        rewrite ?orb_true_r; discriminate.
  - (* statusChanged *)
    unfold step, onStatusChanged, setStatus.
    destruct (isStopped status).
    + split.
      * destruct svc0; cbn; rewrite <- !app_assoc;
          (apply precededFrom_without; [exact Hpre|reflexivity]).
      * destruct svc0; cbn; rewrite !existsb_app; destruct svc; cbn;
          rewrite ?orb_true_r; discriminate.
    + destruct svc0; split; assumption.
  - (* stop settled *)
    unfold step.
    destruct (inFlight (ALauncherStop caller) s) eqn:Hin; [|split; assumption].
    apply inFlight_true in Hin.
    assert (Hseen : existsb (isSvcStop svc) (trace s) = true).
    { destruct (existsb (isSvcStop svc) (trace s)) eqn:Hs; [reflexivity|].
      rewrite (Hnone eq_refl caller) in Hin. lia. }
    assert (Hgoal : forall s', (exists acts, trace s' = trace s ++ acts) ->
               precededBy (isSvcStop svc) isEmitExit (trace s') = true
               /\ (existsb (isSvcStop svc) (trace s') = false ->
                   forall caller0,
                     countAsync (ALauncherStop caller0) (pending s') = 0%nat)).
    { intros s' [acts Hs']. rewrite Hs'. split.
      - unfold precededBy in *. rewrite precededFrom_app, Hpre, Hseen.
        apply precededFrom_seen_true.
      - rewrite existsb_app, Hseen. discriminate. }
    apply Hgoal.
    destruct r as [[wallet node]|err].
    + unfold_methods. case_split; rewrite <- ?app_assoc; eexists; reflexivity.
    + destruct caller; cbn; rewrite <- ?app_assoc;
        try (eexists; reflexivity); exists []; rewrite app_nil_r; reflexivity.
Qed.

Lemma stopRequested_run (svc : Service) (config : LaunchConfig)
    (others : list (string * nat)) (events : list Event) :
  stopRequested svc (run events (constructor config others)).
Proof.
  apply run_invariant; [exact (stopRequested_step svc)|].
  unfold stopRequested. rewrite trace_constructor. unfold constructor.
  destruct (installSignalHandlersOrDefault config); (split; [reflexivity|]);
    intros _ caller; cbn; repeat case_decide; try discriminate; reflexivity.
Qed.

(** X9.  ['exit'] is emitted only after the launcher has asked both
    services to stop: in the trace of every run, every emission of
    ['exit'] comes after a call of [walletService.stop] and after a call
    of [nodeService.stop]. *)
Theorem X9_exit_only_after_both_stops_were_requested
    (config : LaunchConfig) (others : list (string * nat)) (events : list Event) :
  let tr := trace (run events (constructor config others)) in
  precededBy (isSvcStop Wallet) isEmitExit tr = true
  /\ precededBy (isSvcStop Node) isEmitExit tr = true.
Proof.
  split; apply stopRequested_run.
Qed.

(** ** The timeouts the services are stopped with *)

Lemma stopTimeouts_times_zero (svc : Service) (signal : string) (n : nat) (t : Z) :
  In t (stopTimeouts svc (times n (handlerActions signal))) -> t = 0.
Proof.
  induction n as [|n IH]; simpl; [contradiction|].
  destruct svc; simpl; intros [H|H]; auto.
Qed.

Lemma timeouts_step (svc : Service) (e : Event) (s : Launcher) (t : Z) :
  In t (stopTimeouts svc (trace (step e s))) ->
  In t (stopTimeouts svc (trace s))
  \/ t = 0 \/ t = 60
  \/ exists timeoutSeconds, e = EvStop (Some timeoutSeconds) /\ t = timeoutSeconds.
Proof.
  destruct e; try rewrite signal_shape; unfold_methods; case_split;
    try fold (handlerActions signal);
    rewrite ?stopTimeouts_app, ?in_app_iff;
    repeat match goal with
      | |- context [stopTimeouts ?v (?a :: ?l)] =>
          let r := eval vm_compute in (stopTimeouts v (a :: l)) in
          change (stopTimeouts v (a :: l)) with r
      end;
    destruct svc; simpl; intros H;
    repeat match goal with
      | H : _ \/ _ |- _ => destruct H as [H|H]
      | H : False |- _ => contradiction
      | H : In _ (stopTimeouts _ (times _ _)) |- _ =>
          apply stopTimeouts_times_zero in H
      end;
    subst; eauto 8;
    destruct timeoutSeconds; eauto 8.
Qed.

Lemma run_snoc (events : list Event) (e : Event) (s : Launcher) :
  run (events ++ [e]) s = step e (run events s).
Proof. unfold run. rewrite fold_left_app. reflexivity. Qed.

(** X10.  A service is stopped with a timeout of 0 (from the signal
    handler), of 60 (from a service that exited, or from [stop] called
    without an argument), or with one that was passed to [stop]; it is
    never stopped with any other. *)
Theorem X10_timeouts_of_the_service_stops
    (config : LaunchConfig) (others : list (string * nat)) (events : list Event)
    (svc : Service) (t : Z) :
  In t (stopTimeouts svc (trace (run events (constructor config others)))) ->
  t = 0 \/ t = 60 \/ In (EvStop (Some t)) events.
Proof.
  induction events as [|e events IH] using rev_ind.
  - unfold run. cbn [fold_left]. rewrite (trace_constructor config others).
    destruct (installSignalHandlersOrDefault config); destruct svc; simpl;
      contradiction.
  - rewrite run_snoc. intros H.
    apply timeouts_step in H as [H|[H|[H|[t' [-> ->]]]]]; auto.
    + destruct (IH H) as [H0|[H0|H0]]; auto.
      right; right. apply in_or_app; left; exact H0.
    + right; right. apply in_or_app; right; left; reflexivity.
Qed.

Lemma X10_timeouts_of_the_service_stops_witness :
  5 = 0 \/ 5 = 60
  \/ In (EvStop (Some 5)) [EvStop (Some 5); EvStatusChanged Node Stopped].
Proof.
  apply (X10_timeouts_of_the_service_stops sampleConfig []
           [EvStop (Some 5); EvStatusChanged Node Stopped] Wallet 5).
  vm_compute. auto.
Defined.

(** ** The pollers over a run *)

Lemma pollerOk_seen (p : Z) (seen seen' : bool) (q : Poller) :
  pollerOk p seen q = true -> pollerOk p (seen || seen') q = true.
Proof.
  unfold pollerOk. intros H. apply andb_true_iff in H as [H1 H2].
  rewrite H1. destruct (client q) as [c|]; [|reflexivity].
  apply andb_true_iff in H2 as [H2 H3]. apply andb_true_iff in H2 as [H2 H4].
  rewrite H2, H3, H4. reflexivity.
Qed.

Lemma pollerOk_port0 (p : Z) (seen seen' : bool) (q : Poller) :
  pollerOk 0 seen q = true -> pollerOk p seen' q = true.
Proof.
  unfold pollerOk. destruct (addr q).
  - simpl. rewrite andb_false_r. discriminate.
  - destruct (client q); [discriminate | reflexivity].
Qed.

Lemma connectsTo_none (p : Z) (acts : list Action) :
  count isSocketConnect acts = 0%nat -> forallb (connectsTo p) acts = true.
Proof.
  induction acts as [|a acts IH]; [reflexivity|].
  simpl. destruct a; simpl; auto. discriminate.
Qed.

Lemma connectsTo_port0 (p : Z) (tr : list Action) :
  forallb (connectsTo 0) tr = true -> forallb (connectsTo p) tr = true.
Proof.
  induction tr as [|a tr IH]; [reflexivity|].
  simpl. intros H. apply andb_true_iff in H as [Ha Htr].
  rewrite (IH Htr), andb_true_r.
  destruct a; simpl in *; auto. rewrite andb_false_r in Ha. discriminate Ha.
Qed.

Lemma existsb_none (p : Action -> bool) (acts : list Action) :
  count p acts = 0%nat -> existsb p acts = false.
Proof.
  induction acts as [|a acts IH]; [reflexivity|].
  simpl. destruct (p a); [discriminate | exact IH].
Qed.

(** What the events that touch neither the pollers nor the port do. *)
Lemma poller_frame (e : Event) (s : Launcher) :
  match e with
  | EvStart | EvTick _ | EvConnect _ | EvSocketError _ _ | EvWalletExe _ => True
  | _ =>
      pollers (step e s) = pollers s
      /\ apiPort (step e s) = apiPort s
      /\ length (startPromises (step e s)) = length (startPromises s)
      /\ exists acts,
           trace (step e s) = trace s ++ acts
           /\ count isSocketConnect acts = 0%nat
           /\ count isEmitReady acts = 0%nat
  end.
Proof.
  step_cases e; try exact I;
    rewrite ?length_resolveAll, ?length_rejectAll;
    (split; [reflexivity|]); (split; [reflexivity|]); (split; [reflexivity|]);
    rewrite <- ?app_assoc;
    try (eexists; split; [reflexivity|];
         rewrite ?count_app, ?count_times by reflexivity; split; reflexivity);
    exists []; rewrite app_nil_r; repeat split; reflexivity.
Qed.

Lemma pollerInvariant_quiet (s s' : Launcher) (acts : list Action) :
  pollers s' = pollers s -> apiPort s' = apiPort s ->
  length (startPromises s') = length (startPromises s) ->
  trace s' = trace s ++ acts ->
  count isSocketConnect acts = 0%nat -> count isEmitReady acts = 0%nat ->
  pollerInvariant s -> pollerInvariant s'.
Proof.
  intros Hp Ha Hl Ht Hc Hr (I1 & I2 & I3 & I4 & I5 & I6 & I7).
  unfold pollerInvariant. rewrite Hp, Ha, Hl, Ht.
  repeat split.
  - intros t q Hq. rewrite existsb_app. apply pollerOk_seen, (I1 t q Hq).
  - rewrite forallb_app, I2. apply connectsTo_none, Hc.
  - intros Hport. rewrite existsb_app, (I3 Hport). reflexivity.
  - apply precededFrom_without; assumption.
  - apply precededFrom_without; assumption.
  - rewrite count_app, Hr. lia.
  - exact I7.
Qed.

Lemma filter_spent_alter (f : Poller -> Poller) (t : nat) (l : list Poller)
    (q : Poller) :
  l !! t = Some q ->
  (length (List.filter isSpent (alter f t l))
   + (if isSpent q then 1 else 0)
   = length (List.filter isSpent l)
     + (if isSpent (f q) then 1 else 0))%nat.
Proof.
  revert t; induction l as [|x l IH]; intros t Ht; [discriminate Ht|].
  destruct t as [|t]; simpl in Ht.
  - injection Ht as ->. simpl.
    destruct (isSpent q), (isSpent (f q)); simpl; lia.
  - simpl. specialize (IH t Ht).
    change (list_alter f t l) with (alter f t l).
    destruct (isSpent x); simpl; lia.
Qed.

Lemma pollerInvariant_update (s s' : Launcher) (f : Poller -> Poller) (t : nat)
    (q : Poller) (acts : list Action) :
  pollers s !! t = Some q ->
  pollers s' = alter f t (pollers s) ->
  apiPort s' = apiPort s ->
  length (startPromises s') = length (startPromises s) ->
  trace s' = trace s ++ acts ->
  pollerOk (apiPort s) (existsb isSocketConnect (trace s ++ acts)) (f q) = true ->
  forallb (connectsTo (apiPort s)) acts = true ->
  precededFrom isWalletCommandFulfilled isSocketConnect
    (existsb isWalletCommandFulfilled (trace s)) acts = true ->
  precededFrom isSocketConnect isEmitReady
    (existsb isSocketConnect (trace s)) acts = true ->
  (count isEmitReady acts + (if isSpent q then 1 else 0)
   <= if isSpent (f q) then 1 else 0)%nat ->
  pollerInvariant s -> pollerInvariant s'.
Proof.
  intros Hq Hp Ha Hl Ht Hok Hto Hw Hr Hc (I1 & I2 & I3 & I4 & I5 & I6 & I7).
  unfold pollerInvariant. rewrite Hp, Ha, Hl, Ht.
  repeat split.
  - intros j x Hx. destruct (decide (t = j)) as [<-|Hne].
    + rewrite list_lookup_alter_eq, Hq in Hx. injection Hx as <-. exact Hok.
    + rewrite list_lookup_alter_ne in Hx by exact Hne.
      rewrite existsb_app. apply pollerOk_seen, (I1 j x Hx).
  - rewrite forallb_app, I2, Hto. reflexivity.
  - intros Hport. rewrite existsb_app, (I3 Hport). reflexivity.
  - unfold precededBy in *. rewrite precededFrom_app, I4. exact Hw.
  - unfold precededBy in *. rewrite precededFrom_app, I5. exact Hr.
  - pose proof (filter_spent_alter f t (pollers s) q Hq) as Hf.
    rewrite count_app. lia.
  - rewrite length_alter. exact I7.
Qed.

Lemma pollerInvariant_constructor (config : LaunchConfig)
    (others : list (string * nat)) :
  pollerInvariant (constructor config others).
Proof.
  unfold pollerInvariant. rewrite trace_constructor. unfold constructor.
  destruct (installSignalHandlersOrDefault config); cbn;
    repeat split; try reflexivity; try lia; try contradiction;
    intros t q H; rewrite lookup_nil in H; discriminate H.
Qed.

Lemma pollerInvariant_start (s : Launcher) :
  pollerInvariant s -> pollerInvariant (start s).
Proof.
  intros (I1 & I2 & I3 & I4 & I5 & I6 & I7).
  unfold pollerInvariant. rewrite trace_start. cbn.
  repeat split.
  - intros t q Hq. apply lookup_app_Some in Hq as [Hq|[_ Hq]].
    + rewrite existsb_app. apply pollerOk_seen, (I1 t q Hq).
    + destruct (t - length (pollers s))%nat; simpl in Hq; [|discriminate Hq].
      injection Hq as <-. reflexivity.
  - rewrite forallb_app, I2. reflexivity.
  - intros Hport. rewrite existsb_app, (I3 Hport). reflexivity.
  - apply precededFrom_without; [exact I4 | reflexivity].
  - apply precededFrom_without; [exact I5 | reflexivity].
  - rewrite count_app, List.filter_app, length_app. simpl. lia.
  - rewrite !length_app. simpl. lia.
Qed.

Lemma pollerInvariant_walletExe (r : WalletStartService + Rejection) (s : Launcher) :
  chainInvariant s -> apiPort s = reportedPort s ->
  pollerInvariant s -> pollerInvariant (step (EvWalletExe r) s).
Proof.
  intros Hc Hp Inv. unfold step.
  destruct (inFlight AWalletExe s) eqn:Hin; [|exact Inv].
  apply inFlight_true in Hin.
  assert (Hport : apiPort s = 0).
  { rewrite Hp. unfold reportedPort. unfold chainInvariant in Hc.
    destruct (nodeCommand s), (walletCommand s); try reflexivity;
      try contradiction; lia. }
  destruct r as [startService|err].
  - destruct Inv as (I1 & I2 & I3 & I4 & I5 & I6 & I7).
    unfold pollerInvariant. cbn. rewrite Hport in *.
    repeat split.
    + intros t q Hq. eapply pollerOk_port0, (I1 t q Hq).
    + rewrite forallb_app, (connectsTo_port0 _ _ I2). reflexivity.
    + intros _. rewrite existsb_app. simpl. apply orb_true_r.
    + apply precededFrom_without; [exact I4 | reflexivity].
    + apply precededFrom_without; [exact I5 | reflexivity].
    + rewrite count_app. simpl. lia.
    + exact I7.
  - eapply (pollerInvariant_quiet s); try exact Inv; try reflexivity.
    + cbn. rewrite <- !app_assoc. reflexivity.
    + reflexivity.
    + reflexivity.
Qed.

Lemma pollerOk_facts (p : Z) (seen : bool) (q : Poller) :
  pollerOk p seen q = true ->
  (forall opts, addr q = Some opts -> opts = loopback p /\ p <> 0)
  /\ (forall c, client q = Some c ->
        addr q <> None /\ seen = true
        /\ (c = Connected -> timerActive q = false)).
Proof.
  unfold pollerOk. intros H. apply andb_true_iff in H as [H1 H2]. split.
  - intros opts Ho. rewrite Ho in H1. apply andb_true_iff in H1 as [H1 H3].
    apply bool_decide_eq_true_1 in H1. apply negb_true_iff, Z.eqb_neq in H3. auto.
  - intros c Hcl. rewrite Hcl in H2.
    apply andb_true_iff in H2 as [H2 H3]. apply andb_true_iff in H2 as [H2 H4].
    repeat split.
    + destruct (addr q); [discriminate | discriminate H2].
    + exact H4.
    + intros ->. apply negb_true_iff, H3.
Qed.

Lemma pollerOk_clearTimer (p : Z) (seen : bool) (q : Poller) :
  pollerOk p seen q = true -> pollerOk p seen (clearTimer q) = true.
Proof.
  unfold pollerOk. simpl. intros H. apply andb_true_iff in H as [H1 H2].
  rewrite H1. simpl. destruct (client q) as [c|]; [|reflexivity].
  apply andb_true_iff in H2 as [H2 _]. rewrite H2. destruct c; reflexivity.
Qed.

Lemma pollerInvariant_tick (t : nat) (s : Launcher) :
  pollerInvariant s -> pollerInvariant (step (EvTick t) s).
Proof.
  intros Inv. unfold step.
  destruct (timerRunning t s) eqn:Hrun; [|exact Inv].
  unfold timerRunning in Hrun.
  destruct (pollers s !! t) as [q|] eqn:Hq; [|discriminate Hrun].
  pose proof (proj1 Inv t q Hq) as Hok.
  destruct (pollerOk_facts _ _ _ Hok) as [Haddr Hclient].
  assert (Hnc : isSpent q = false).
  { unfold isSpent. rewrite Hrun. reflexivity. }
  unfold timerCallback. destruct (stopWaiting s).
  - apply (pollerInvariant_update s _ clearTimer t q [ClearInterval t] Hq);
      try reflexivity; try exact Inv; try (rewrite Hnc; simpl; lia).
    rewrite existsb_app. apply pollerOk_seen, pollerOk_clearTimer, Hok.
  - destruct (apiPort s =? 0) eqn:Hz; [exact Inv|]. simpl negb. cbv iota.
    rewrite Hq.
    assert (Hport : apiPort s <> 0) by (apply Z.eqb_neq, Hz).
    pose proof (proj1 (proj2 (proj2 Inv)) Hport) as Hw.
    destruct (addr q) as [opts|] eqn:Ha.
    + destruct (Haddr opts eq_refl) as [-> _].
      destruct (client q) as [c|] eqn:Hcl.
      * apply (pollerInvariant_update s _ (setClient Connecting) t q
                 [SocketDestroy t; SocketConnect t (loopback (apiPort s))] Hq);
          try reflexivity; try exact Inv.
        -- cbn. rewrite <- app_assoc. reflexivity.
        -- rewrite existsb_app. unfold pollerOk. simpl. rewrite Ha.
           rewrite bool_decide_eq_true_2 by reflexivity. rewrite Hz, orb_true_r.
           reflexivity.
        -- simpl. rewrite bool_decide_eq_true_2 by reflexivity. rewrite Hz.
           reflexivity.
        -- simpl. rewrite Hw. reflexivity.
        -- rewrite Hnc. simpl. lia.
      * apply (pollerInvariant_update s _ (setClient Connecting) t q
                 [SocketConnect t (loopback (apiPort s))] Hq);
          try reflexivity; try exact Inv.
        -- rewrite existsb_app. unfold pollerOk. simpl. rewrite Ha.
           rewrite bool_decide_eq_true_2 by reflexivity. rewrite Hz, orb_true_r.
           reflexivity.
        -- simpl. rewrite bool_decide_eq_true_2 by reflexivity. rewrite Hz.
           reflexivity.
        -- simpl. rewrite Hw. reflexivity.
        -- rewrite Hnc. simpl. lia.
    + destruct (client q) as [c|] eqn:Hcl;
        [destruct (Hclient c eq_refl) as (Hsome & _); contradiction|].
      apply (pollerInvariant_update s _
               (setClient Connecting ∘ setAddr (loopback (apiPort s))) t q
               [Info ("Waiting for tcp port " +:+ host (loopback (apiPort s))
                      +:+ ":" +:+ pretty (port (loopback (apiPort s)))
                      +:+ " to accept connections...");
                SocketConnect t (loopback (apiPort s))] Hq);
        try reflexivity; try exact Inv.
      * cbn [pollers alterPoller log set_pollers set_trace]. unfold loopback.
        apply list_alter_alter_eq.
      * cbn [trace alterPoller log set_pollers set_trace]. rewrite <- app_assoc.
        reflexivity.
      * rewrite existsb_app. unfold pollerOk. simpl.
        rewrite bool_decide_eq_true_2 by reflexivity. rewrite Hz.
        simpl. rewrite orb_true_r. reflexivity.
      * simpl. rewrite bool_decide_eq_true_2 by reflexivity. rewrite Hz.
        reflexivity.
      * simpl. rewrite Hw. reflexivity.
      * rewrite Hnc. simpl. lia.
Qed.

Lemma connecting_spec (t : nat) (s : Launcher) :
  connecting t s = true ->
  exists q, pollers s !! t = Some q /\ client q = Some Connecting.
Proof.
  unfold connecting. destruct (pollers s !! t) as [q|]; [|discriminate].
  destruct q as [a o [[]|]]; try discriminate. intros _. eexists; split; reflexivity.
Qed.

Lemma socketOpen_spec (t : nat) (s : Launcher) :
  socketOpen t s = true ->
  exists q, pollers s !! t = Some q
            /\ (client q = Some Connecting \/ client q = Some Connected).
Proof.
  unfold socketOpen. destruct (pollers s !! t) as [q|]; [|discriminate].
  destruct q as [a o [[]|]]; try discriminate; intros _; eexists; split;
    try reflexivity; auto.
Qed.

Lemma connect_step (t : nat) (s : Launcher) :
  connecting t s = true ->
  pollers (step (EvConnect t) s)
  = alter (clearTimer ∘ setClient Connected) t (pollers s)
  /\ apiPort (step (EvConnect t) s) = apiPort s
  /\ length (startPromises (step (EvConnect t) s)) = length (startPromises s)
  /\ trace (step (EvConnect t) s)
     = trace s ++ [Info "... port is ready."; ClearInterval t]
       ++ match getApi s with
          | Some api => [EmitReady api]
          | None => []
          end.
Proof.
  intros Hconn. unfold step. rewrite Hconn.
  unfold connectCallback, ready, clearInterval, getApi. cbn -[emitReady].
  destruct (walletCommand s); rewrite ?emitReady_shape;
    cbn -[resolveAll called firstThrown];
    rewrite ?length_resolveAll, <- ?app_assoc;
    repeat split; try reflexivity; apply list_alter_alter_eq.
Qed.

Lemma pollerInvariant_connect (t : nat) (s : Launcher) :
  pollerInvariant s -> pollerInvariant (step (EvConnect t) s).
Proof.
  intros Inv.
  destruct (connecting t s) eqn:Hconn;
    [|unfold step; rewrite Hconn; exact Inv].
  destruct (connecting_spec t s Hconn) as (q & Hq & Hcl).
  pose proof (proj1 Inv t q Hq) as Hok.
  destruct (pollerOk_facts _ _ _ Hok) as [Haddr Hclient].
  destruct (Hclient _ Hcl) as (Hsome & Hseen & _).
  destruct (connect_step t s Hconn) as (Hp & Ha & Hl & Ht).
  apply (pollerInvariant_update s _ (clearTimer ∘ setClient Connected) t q
           _ Hq Hp Ha Hl Ht); try exact Inv.
  - rewrite existsb_app, Hseen. unfold pollerOk in *. simpl.
    apply andb_true_iff in Hok as [H1 _]. rewrite H1.
    destruct (addr q); [reflexivity | contradiction].
  - destruct (getApi s); reflexivity.
  - destruct (getApi s); reflexivity.
  - rewrite Hseen. destruct (getApi s); reflexivity.
  - unfold isSpent. simpl. rewrite Hcl, andb_false_r.
    destruct (getApi s); simpl; lia.
Qed.

Lemma pollerInvariant_socketError (t : nat) (err : string) (s : Launcher) :
  pollerInvariant s -> pollerInvariant (step (EvSocketError t err) s).
Proof.
  intros Inv. unfold step.
  destruct (socketOpen t s) eqn:Hopen; [|exact Inv].
  destruct (socketOpen_spec t s Hopen) as (q & Hq & Hcl).
  pose proof (proj1 Inv t q Hq) as Hok.
  destruct (pollerOk_facts _ _ _ Hok) as [Haddr Hclient].
  assert (Hfacts : addr q <> None
                   /\ existsb isSocketConnect (trace s) = true).
  { destruct Hcl as [Hcl|Hcl]; destruct (Hclient _ Hcl) as (H1 & H2 & _); auto. }
  destruct Hfacts as [Hsome Hseen].
  apply (pollerInvariant_update s _ (setClient Failed) t q
           [Debug ("waitForApi: not ready yet: " +:+ err)] Hq);
    try exact Inv; try reflexivity.
  - rewrite existsb_app, Hseen. unfold pollerOk in *. simpl.
    apply andb_true_iff in Hok as [H1 _]. rewrite H1.
    destruct (addr q); [reflexivity | contradiction].
  - unfold isSpent. simpl. rewrite andb_true_r.
    destruct (negb (timerActive q)), (client q) as [[]|]; simpl; lia.
Qed.

Lemma pollerInvariant_step (e : Event) (s : Launcher) :
  chainInvariant s -> apiPort s = reportedPort s ->
  pollerInvariant s -> pollerInvariant (step e s).
Proof.
  intros Hc Hp Inv.
  pose proof (poller_frame e s) as Hframe.
  destruct e;
    try (destruct Hframe as (H1 & H2 & H3 & acts & H4 & H5 & H6);
         exact (pollerInvariant_quiet s _ acts H1 H2 H3 H4 H5 H6 Inv)).
  - apply pollerInvariant_walletExe; assumption.
  - apply pollerInvariant_start, Inv.
  - apply pollerInvariant_tick, Inv.
  - apply pollerInvariant_connect, Inv.
  - apply pollerInvariant_socketError, Inv.
Qed.

Lemma reachable_pollers (config : LaunchConfig) (others : list (string * nat))
    (events : list Event) :
  pollerInvariant (run events (constructor config others)).
Proof.
  assert (H : let s := run events (constructor config others) in
              (chainInvariant s /\ apiPort s = reportedPort s)
              /\ pollerInvariant s); [|exact (proj2 H)].
  apply (run_invariant
           (fun s => (chainInvariant s /\ apiPort s = reportedPort s)
                     /\ pollerInvariant s)).
  - intros e s [[Hc Hp] Hi]. split; [split|].
    + apply chainInvariant_step, Hc.
    + apply portInvariant_step; assumption.
    + apply pollerInvariant_step; assumption.
  - split; [split|].
    + apply chainInvariant_constructor.
    + unfold constructor.
      destruct (installSignalHandlersOrDefault config); reflexivity.
    + apply pollerInvariant_constructor.
Qed.

(** ** What the pollers do over a run *)

(** X11.  The poller makes no connection attempt before the wallet
    command has reported its port: in the trace of every run every
    [client.connect] comes after the fulfilment of the wallet command,
    and a tick that finds [apiPort] still 0 (and the stop predicate
    false) changes nothing. *)
Theorem X11_no_attempt_before_the_port_is_known :
  (forall config others events,
      precededBy isWalletCommandFulfilled isSocketConnect
        (trace (run events (constructor config others))) = true)
  /\ (forall t s,
        stopWaiting s = false -> apiPort s = 0 -> step (EvTick t) s = s).
Proof.
  split.
  - intros config others events.
    apply (reachable_pollers config others events).
  - intros t s Hstop Hport. unfold step, timerCallback.
    rewrite Hstop, Hport. destruct (timerRunning t s); reflexivity.
Qed.

Lemma X11_no_attempt_before_the_port_is_known_witness :
  step (EvTick 0) (run [EvStart] (constructor sampleConfig []))
  = run [EvStart] (constructor sampleConfig []).
Proof.
  apply (proj2 X11_no_attempt_before_the_port_is_known); reflexivity.
Defined.

Lemma connectsTo_In (p : Z) (tr : list Action) (t : nat) (opts : SocketConnectOpts) :
  forallb (connectsTo p) tr = true -> In (SocketConnect t opts) tr ->
  opts = loopback p /\ p <> 0.
Proof.
  rewrite forallb_forall. intros H Hin. specialize (H _ Hin). simpl in H.
  apply andb_true_iff in H as [H1 H2].
  apply bool_decide_eq_true_1 in H1. apply negb_true_iff, Z.eqb_neq in H2. auto.
Qed.

Lemma reachable_port (config : LaunchConfig) (others : list (string * nat))
    (events : list Event) :
  let s := run events (constructor config others) in
  apiPort s <> 0 ->
  exists startService,
    walletCommand s = Fulfilled startService /\ infoPort startService = apiPort s.
Proof.
  intros s Hport.
  destruct (reachable_commands config others events) as (_ & _ & Hp).
  fold s in Hp. unfold reportedPort in Hp.
  destruct (walletCommand s) as [|startService|]; try contradiction.
  exists startService. auto.
Qed.

(** X12.  Every connection attempt of every poller goes to host
    127.0.0.1 and to the port the wallet command has reported, which is
    not 0. *)
Theorem X12_attempts_go_to_the_reported_port
    (config : LaunchConfig) (others : list (string * nat)) (events : list Event)
    (t : nat) (opts : SocketConnectOpts) :
  let s := run events (constructor config others) in
  In (SocketConnect t opts) (trace s) ->
  exists startService,
    walletCommand s = Fulfilled startService
    /\ opts = {| port := infoPort startService; host := "127.0.0.1" |}
    /\ infoPort startService <> 0.
Proof.
  intros s Hin.
  pose proof (reachable_pollers config others events) as (_ & Hto & _).
  fold s in Hto. destruct (connectsTo_In _ _ _ _ Hto Hin) as [-> Hport].
  destruct (reachable_port config others events Hport) as (startService & Hw & Hp).
  fold s in Hw, Hp. exists startService. rewrite Hp. auto.
Qed.

Lemma X12_attempts_go_to_the_reported_port_witness :
  exists startService,
    walletCommand (run attemptThenStopping (constructor sampleConfig []))
    = Fulfilled startService
    /\ loopback 8090 = {| port := infoPort startService; host := "127.0.0.1" |}
    /\ infoPort startService <> 0.
Proof.
  apply (X12_attempts_go_to_the_reported_port sampleConfig [] attemptThenStopping
           0%nat (loopback 8090)).
  vm_compute. auto 20.
Defined.

Lemma wallet_stable (e : Event) (s : Launcher) :
  chainInvariant s -> isFulfilled (walletCommand s) = true ->
  walletCommand (step e s) = walletCommand s.
Proof.
  intros Hc Hw. pose proof (chain_frame e s) as Hframe.
  unfold chainInvariant in Hc.
  destruct (walletCommand s) eqn:Hwc; try discriminate Hw.
  destruct (nodeCommand s); try contradiction.
  destruct e; try exact (proj1 (proj2 Hframe)); clear Hframe;
    unfold step;
    match goal with
    | |- context [inFlight ?a s] =>
        destruct (inFlight a s) eqn:Hin; [|exact Hwc];
        apply inFlight_true in Hin; lia
    end.
Qed.

Lemma ready_step (e : Event) (s : Launcher) (api : Api) :
  In (EmitReady api) (trace (step e s)) ->
  In (EmitReady api) (trace s)
  \/ (getApi s = Some api /\ exists t, e = EvConnect t).
Proof.
  destruct e; try rewrite signal_shape; unfold_methods; case_split;
    rewrite ?in_app_iff; simpl; intros H;
    repeat match goal with
      | H : _ \/ _ |- _ => destruct H as [H|H]
      | H : False |- _ => contradiction
      | H : In _ (times _ _) |- _ => exfalso; revert H; clear;
          generalize (registrations signal (processListeners s)) as n;
          induction n as [|n IH]; simpl; intuition discriminate
      end;
    try discriminate; auto.
  right. injection H as <-. split; [exact Heqo | eexists; reflexivity].
Qed.

Lemma ready_carries_api (config : LaunchConfig) (others : list (string * nat))
    (events : list Event) (api : Api) :
  let s := run events (constructor config others) in
  In (EmitReady api) (trace s) -> getApi s = Some api.
Proof.
  assert (H : let s := run events (constructor config others) in
              chainInvariant s
              /\ forall api, In (EmitReady api) (trace s) -> getApi s = Some api);
    [|intros s; apply (proj2 H)].
  apply (run_invariant
           (fun s => chainInvariant s
                     /\ forall api, In (EmitReady api) (trace s)
                                    -> getApi s = Some api)).
  - intros e s [Hc Inv]. split; [apply chainInvariant_step, Hc|].
    intros api' Hin.
    assert (Hold : getApi s = Some api').
    { apply ready_step in Hin as [Hin|[Hg _]]; [apply Inv, Hin | exact Hg]. }
    unfold getApi in *.
    rewrite (wallet_stable e s Hc); [exact Hold|].
    destruct (walletCommand s); [discriminate Hold | reflexivity | discriminate Hold].
  - split; [apply chainInvariant_constructor|].
    intros api' Hin. rewrite trace_constructor in Hin.
    destruct (installSignalHandlersOrDefault config); simpl in Hin;
      intuition discriminate.
Qed.

(** X13.  ['ready'] is emitted only after a connection attempt has been
    made, and what it carries is the [api] of the wallet start command:
    in the trace of every run every emission of ['ready'] comes after a
    [client.connect], and its argument is [status.info.api] of the
    fulfilled wallet command. *)
Theorem X13_ready_follows_an_attempt_and_carries_the_api :
  (forall config others events,
      precededBy isSocketConnect isEmitReady
        (trace (run events (constructor config others))) = true)
  /\ (forall config others events api,
        let s := run events (constructor config others) in
        In (EmitReady api) (trace s) ->
        exists startService,
          walletCommand s = Fulfilled startService
          /\ api = infoApi startService).
Proof.
  split.
  - intros config others events.
    apply (reachable_pollers config others events).
  - intros config others events api s Hin.
    pose proof (ready_carries_api config others events api Hin) as Hg.
    fold s in Hg. unfold getApi in Hg.
    destruct (walletCommand s) as [|startService|]; try discriminate Hg.
    exists startService. split; [reflexivity | congruence].
Qed.

Lemma X13_ready_follows_an_attempt_and_carries_the_api_witness :
  exists startService,
    walletCommand (run (attemptThenStopping ++ [EvConnect 0])
                     (constructor sampleConfig []))
    = Fulfilled startService
    /\ sampleApi = infoApi startService.
Proof.
  apply (proj2 X13_ready_follows_an_attempt_and_carries_the_api sampleConfig []
           (attemptThenStopping ++ [EvConnect 0]) sampleApi).
  vm_compute. auto 30.
Defined.

Lemma filter_spent_length (l : list Poller) :
  (length (List.filter isSpent l) <= length l)%nat.
Proof.
  induction l as [|x l IH]; simpl; [lia|].
  destruct (isSpent x); simpl; lia.
Qed.

(** X14.  ['ready'] is emitted at most once for each call of [start]:
    over every run the number of emissions is at most the number of
    promises [start] has returned. *)
Theorem X14_ready_at_most_once_per_start
    (config : LaunchConfig) (others : list (string * nat)) (events : list Event) :
  let s := run events (constructor config others) in
  (count isEmitReady (trace s) <= length (startPromises s))%nat.
Proof.
  intros s.
  pose proof (reachable_pollers config others events)
    as (_ & _ & _ & _ & _ & Hc & Hl).
  fold s in Hc, Hl. pose proof (filter_spent_length (pollers s)). lia.
Qed.

(** X15.  A connection that succeeds always emits ['ready'], with the
    [api] of the wallet start command, and settles the promises of
    [start] whose listeners the emission gets to: such a promise, if
    pending, is fulfilled with that [api], whichever call of [start] the
    poller belongs to; a settled one, and one whose listener comes after
    a listener that throws, is left as it is.  When no listener of
    ['ready'] throws, every pending promise is fulfilled. *)
Theorem X15_connection_resolves_every_pending_start
    (config : LaunchConfig) (others : list (string * nat)) (events : list Event)
    (t : nat) :
  let s := run events (constructor config others) in
  connecting t s = true ->
  exists startService,
    walletCommand s = Fulfilled startService
    /\ trace (step (EvConnect t) s)
       = trace s ++ [Info "... port is ready."; ClearInterval t;
                     EmitReady (infoApi startService)]
    /\ forall k p,
         startPromises s !! k = Some p ->
         startPromises (step (EvConnect t) s) !! k
         = Some (if bool_decide
                      (OnReady k ∈ called throwsOnReady (listeners s))
                 then (if isPending p then Fulfilled (infoApi startService) else p)
                 else p)
         /\ (firstThrown throwsOnReady (listeners s) = None ->
             startPromises (step (EvConnect t) s) !! k
             = Some (if isPending p then Fulfilled (infoApi startService) else p)).
Proof.
  intros s Hconn.
  destruct (connecting_spec t s Hconn) as (q & Hq & Hcl).
  pose proof (reachable_pollers config others events) as (Hok & _).
  fold s in Hok.
  destruct (pollerOk_facts _ _ _ (Hok t q Hq)) as [Haddr Hclient].
  destruct (Hclient _ Hcl) as (Hsome & _).
  assert (Hport : apiPort s <> 0).
  { destruct (addr q) as [opts|] eqn:Ha; [|contradiction].
    apply (Haddr opts eq_refl). }
  destruct (reachable_port config others events Hport) as (startService & Hw & _).
  fold s in Hw. exists startService. split; [exact Hw|].
  assert (Hstep : step (EvConnect t) s
                  = snd (emitReady (infoApi startService)
                           (clearInterval t
                              (log (Info "... port is ready.")
                                 (alterPoller t (setClient Connected) s))))).
  { unfold step. rewrite Hconn. unfold connectCallback, ready, getApi.
    cbn -[emitReady]. rewrite Hw. reflexivity. }
  rewrite Hstep, emitReady_shape. split.
  - cbn. rewrite <- !app_assoc. reflexivity.
  - intros k p Hk. cbn -[resolveAll called firstThrown].
    rewrite (resolveAll_lookup _ _ _ _ _ Hk).
    split; [reflexivity|]. intros Hno. rewrite (called_all _ _ Hno).
    pose proof (proj1 (allSubscribed_spec s) (allSubscribed_run config others events) k)
      as Hsub.
    destruct (Hsub ltac:(eapply lookup_lt_Some; exact Hk)) as [Hready _].
    rewrite bool_decide_eq_true_2 by exact Hready. reflexivity.
Qed.

Lemma X15_connection_resolves_every_pending_start_witness :
  let s := run ([EvStart; EvOnReady (Some sampleThrow); EvStart]
                ++ attemptThenStopping)
             (constructor sampleConfig []) in
  exists startService,
    walletCommand s = Fulfilled startService
    /\ trace (step (EvConnect 0) s)
       = trace s ++ [Info "... port is ready."; ClearInterval 0%nat;
                     EmitReady (infoApi startService)]
    /\ forall k p,
         startPromises s !! k = Some p ->
         startPromises (step (EvConnect 0) s) !! k
         = Some (if bool_decide
                      (OnReady k ∈ called throwsOnReady (listeners s))
                 then (if isPending p then Fulfilled (infoApi startService) else p)
                 else p)
         /\ (firstThrown throwsOnReady (listeners s) = None ->
             startPromises (step (EvConnect 0) s) !! k
             = Some (if isPending p then Fulfilled (infoApi startService) else p)).
Proof.
  apply (X15_connection_resolves_every_pending_start sampleConfig []
           ([EvStart; EvOnReady (Some sampleThrow); EvStart]
            ++ attemptThenStopping) 0%nat).
  vm_compute. reflexivity.
Defined.

(** A socket error of a poller adds the debug line of the ['error']
    listener and changes nothing else but the client of that poller. *)
Lemma socketError_step (timer : nat) (err : string) (s : Launcher) :
  startPromises (step (EvSocketError timer err) s) = startPromises s
  /\ exited (step (EvSocketError timer err) s) = exited s
  /\ (trace (step (EvSocketError timer err) s) = trace s
      \/ trace (step (EvSocketError timer err) s)
         = trace s ++ [Debug ("waitForApi: not ready yet: " +:+ err)]).
Proof.
  unfold step. destruct (socketOpen timer s); cbn; auto.
Qed.

(** X16.  A poller whose timer was cleared while no connection attempt
    was in flight is finished for good: whatever happens afterwards, its
    timer stays cleared, it has no attempt in flight, and a tick or a
    connection of that poller changes nothing, so it never calls
    [ready].  An error of its socket, which may come after the
    connection was made, adds nothing but the debug line of the
    ['error'] listener. *)
Theorem X16_stopped_poller_stays_quiet
    (timer : nat) (s : Launcher) (events : list Event) :
  pollerQuiet timer s ->
  let s' := run events s in
  pollerQuiet timer s'
  /\ step (EvTick timer) s' = s'
  /\ step (EvConnect timer) s' = s'
  /\ forall err,
       let s'' := step (EvSocketError timer err) s' in
       pollerQuiet timer s''
       /\ startPromises s'' = startPromises s'
       /\ (trace s'' = trace s'
           \/ trace s''
              = trace s' ++ [Debug ("waitForApi: not ready yet: " +:+ err)]).
Proof.
  intros Hq s'.
  assert (Hq' : pollerQuiet timer s').
  { apply run_invariant; [exact (pollerQuiet_step timer) | exact Hq]. }
  split; [exact Hq'|].
  pose proof Hq' as (_ & Hrun & Hconn).
  split; [unfold step; rewrite Hrun; reflexivity|].
  split; [unfold step; rewrite Hconn; reflexivity|].
  intros err s''. split; [apply pollerQuiet_step, Hq'|].
  destruct (socketError_step timer err s') as (Hp & _ & Ht). auto.
Qed.

Lemma X16_stopped_poller_stays_quiet_witness :
  let s' := run [EvStatusChanged Node Stopped; EvTick 0] connectedPoller in
  pollerQuiet 0 s'
  /\ step (EvTick 0) s' = s'
  /\ step (EvConnect 0) s' = s'
  /\ forall err,
       let s'' := step (EvSocketError 0 err) s' in
       pollerQuiet 0 s''
       /\ startPromises s'' = startPromises s'
       /\ (trace s'' = trace s'
           \/ trace s''
              = trace s' ++ [Debug ("waitForApi: not ready yet: " +:+ err)]).
Proof.
  apply (X16_stopped_poller_stays_quiet 0 connectedPoller).
  split; [vm_compute; lia | vm_compute; split; reflexivity].
Defined.

(** ** The client sockets of a poller *)

Lemma socket_trace_frame (t : nat) (e : Event) (s : Launcher) :
  match e with
  | EvTick _ => True
  | _ =>
      count (isConnectOf t) (trace (step e s)) = count (isConnectOf t) (trace s)
      /\ count (isDestroyOf t) (trace (step e s)) = count (isDestroyOf t) (trace s)
  end.
Proof.
  step_cases e; try exact I;
    rewrite ?count_app, ?count_times by reflexivity;
    cbn; rewrite ?Nat.add_0_r; split; reflexivity.
Qed.

Lemma pollers_connect (t : nat) (s : Launcher) :
  connecting t s = true ->
  pollers (step (EvConnect t) s)
  = alter clearTimer t (alter (setClient Connected) t (pollers s)).
Proof.
  intros Hconn. unfold step. rewrite Hconn.
  unfold_methods. case_split; reflexivity.
Qed.

Lemma liveClients_frame (t : nat) (e : Event) (s : Launcher) :
  match e with
  | EvTick t' => t' <> t -> liveClients t (step e s) = liveClients t s
  | _ => liveClients t (step e s) = liveClients t s
  end.
Proof.
  pose proof (pollers_frame e s) as Hframe. unfold liveClients.
  destruct e; try (rewrite Hframe; reflexivity); clear Hframe.
  - (* start *)
    cbn. destruct (pollers s !! t) as [q|] eqn:Hq.
    + rewrite (lookup_app_l_Some _ _ _ _ Hq). reflexivity.
    + apply lookup_ge_None in Hq. rewrite lookup_app_r by exact Hq.
      destruct (t - length (pollers s))%nat as [|[|n]]; reflexivity.
  - (* tick of another timer *)
    intros Hne.
    rewrite (proj1 (pollers_other_timer (EvTick timer) timer t s Hne eq_refl)).
    reflexivity.
  - (* connect *)
    destruct (decide (timer = t)) as [->|Hne].
    + destruct (connecting t s) eqn:Hconn;
        [|unfold step; rewrite Hconn; reflexivity].
      destruct (connecting_spec t s Hconn) as (q & Hq & Hcl).
      rewrite (pollers_connect t s Hconn).
      rewrite list_alter_alter_eq, list_lookup_alter_eq, Hq. simpl.
      rewrite Hcl. reflexivity.
    + rewrite (proj1 (pollers_other_timer (EvConnect timer) timer t s Hne eq_refl)).
      reflexivity.
  - (* socket error *)
    destruct (decide (timer = t)) as [->|Hne].
    + unfold step. destruct (socketOpen t s) eqn:Hopen; [|reflexivity].
      destruct (socketOpen_spec t s Hopen) as (q & Hq & Hcl).
      cbn. rewrite list_lookup_alter_eq, Hq. simpl.
      destruct Hcl as [Hcl|Hcl]; rewrite Hcl; reflexivity.
    + rewrite (proj1 (pollers_other_timer (EvSocketError timer err) timer t s
                        Hne eq_refl)).
      reflexivity.
Qed.

Lemma sockets_tick_other (t timer : nat) (s : Launcher) :
  timer <> t ->
  count (isConnectOf t) (trace (step (EvTick timer) s))
  = count (isConnectOf t) (trace s)
  /\ count (isDestroyOf t) (trace (step (EvTick timer) s))
     = count (isDestroyOf t) (trace s).
Proof.
  intros Hne. apply Nat.eqb_neq in Hne.
  unfold_methods. case_split; rewrite ?count_app; cbn; rewrite ?Hne;
    split; lia.
Qed.

Lemma sockets_tick_same (t : nat) (s : Launcher) :
  count (isConnectOf t) (trace s)
  = (count (isDestroyOf t) (trace s) + liveClients t s)%nat ->
  count (isConnectOf t) (trace (step (EvTick t) s))
  = (count (isDestroyOf t) (trace (step (EvTick t) s))
     + liveClients t (step (EvTick t) s))%nat.
Proof.
  unfold liveClients, step, timerRunning.
  destruct (pollers s !! t) as [q|] eqn:Hq; [|rewrite Hq; exact (fun H => H)].
  destruct (timerActive q); [|rewrite Hq; exact (fun H => H)].
  unfold timerCallback. destruct (stopWaiting s).
  - cbn. rewrite list_lookup_alter_eq, Hq, !count_app. simpl. intros H; lia.
  - destruct (apiPort s =? 0); simpl negb; cbv iota;
      [rewrite Hq; exact (fun H => H)|].
    rewrite Hq. destruct (addr q), (client q); cbn;
      rewrite ?list_alter_alter_eq, list_lookup_alter_eq, Hq, !count_app; simpl;
      rewrite Nat.eqb_refl; intros H; lia.
Qed.

(** X17.  A poller holds on to one client socket at most: over every run
    and for every poller, the number of its connection attempts is the
    number of its sockets that were destroyed, plus one if it holds a
    client.  Every socket but the latest has been destroyed before the
    next attempt was made. *)
Theorem X17_one_live_socket_per_poller
    (config : LaunchConfig) (others : list (string * nat)) (events : list Event)
    (t : nat) :
  let s := run events (constructor config others) in
  count (isConnectOf t) (trace s)
  = (count (isDestroyOf t) (trace s) + liveClients t s)%nat
  /\ (liveClients t s <= 1)%nat.
Proof.
  intros s. split.
  - apply (run_invariant
             (fun s => count (isConnectOf t) (trace s)
                       = (count (isDestroyOf t) (trace s) + liveClients t s)%nat)).
    + intros e s0 Inv.
      pose proof (socket_trace_frame t e s0) as Htr.
      pose proof (liveClients_frame t e s0) as Hlive.
      destruct e; try (rewrite (proj1 Htr), (proj2 Htr), Hlive; exact Inv).
      destruct (decide (timer = t)) as [->|Hne].
      * apply sockets_tick_same, Inv.
      * destruct (sockets_tick_other t timer s0 Hne) as [H1 H2].
        rewrite H1, H2, (Hlive Hne). exact Inv.
    + rewrite trace_constructor. unfold liveClients, constructor.
      destruct (installSignalHandlersOrDefault config); reflexivity.
  - unfold liveClients. destruct (pollers s !! t) as [q|]; [|lia].
    destruct (client q); lia.
Qed.
